(** * PicPow: the compression core, embedded and verified

    A shallow embedding of the TypeScript sources

      - [src/core/config.ts]       (the quality table [COMPRESSION_CONFIG])
      - [src/core/engine-wasm.ts]  ([mimeToFormat], [decodeImage], [encodeImage])
      - [src/core/compressor.ts]   ([compressFile], [isSupportedFile])
      - [src/core/worker.ts]       (the worker's [onmessage] handler)
      - [src/hooks/useCompressor.ts] (the queue of files and its handlers)
      - [src/utils/file-io.ts]     ([compressionRatio], [mimeToExtension])
      - the [SettingsBar] component  (what its buttons do to the settings)

    The codecs (@jsquash, libheif, the canvas) are outside the repository:
    they appear as a record of oracles, and every call the code makes to
    one of them is written to a log, so that what was encoded, with which
    options, is observable.  JavaScript numbers that take part in
    floating-point arithmetic are binary64 values ([spec_float] with
    precision 53 and maximal exponent 1024).  An object literal indexed
    with a string finds its own properties and, for other keys, what it
    inherits from [Object.prototype]. *)

From Stdlib Require Import ZArith String Ascii List Bool Lia.
From Stdlib Require Import Numbers.DecimalString Numbers.DecimalZ Numbers.DecimalPos.
From Stdlib Require Import Floats.SpecFloat.
From stdpp Require Import gmap strings list.

Open Scope string_scope.
Open Scope Z_scope.

(* ===================================================================== *)
(** ** JavaScript values used by the sources *)
(* ===================================================================== *)

Module JS.

(** [String.prototype.toLowerCase].  A string is a sequence of code
    units below 256 (strings with higher code units are not
    represented); the ASCII capitals are lowered and every other code
    unit is left as it is.  On code units from 128 to 255 the method
    may answer otherwise, but it never turns one into an ASCII
    character, and the strings compared with its result in these
    sources are ASCII throughout, so every comparison comes out as in
    the browser.  [File.type] itself is an ASCII string by the File
    API. *)
Definition lower_ascii (c : ascii) : ascii :=
  let n := nat_of_ascii c in
  if ((65 <=? n) && (n <=? 90))%nat then ascii_of_nat (n + 32) else c.

Fixpoint toLowerCase (s : string) : string :=
  match s with
  | EmptyString => EmptyString
  | String c r => String (lower_ascii c) (toLowerCase r)
  end.

(** [String.prototype.includes]. *)
Fixpoint includes (s sub : string) : bool :=
  String.prefix sub s ||
  match s with
  | EmptyString => false
  | String _ r => includes r sub
  end.

(** A value raised by [throw]: an [Error] object, or anything else
    (of which only its string conversion is ever used). *)
Inductive Thrown :=
| ErrorObj (message : string)
| OtherValue (text : string).

(** [String(err)] and [`${err}`]: [Error.prototype.toString] gives the
    name, then the message when there is one. *)
Definition toString (e : Thrown) : string :=
  match e with
  | ErrorObj "" => "Error"
  | ErrorObj m => "Error: " +:+ m
  | OtherValue t => t
  end.

(** [x ?? d]. *)
Definition nullish {A} (x : option A) (d : A) : A :=
  match x with Some v => v | None => d end.

(** What indexing a plain object finds when the key is none of its own
    properties: the members of [Object.prototype].  [constructor] is
    the function [Object], [__proto__] is [Object.prototype] itself,
    and the other ten are built-in methods.  All of them are objects:
    none is nullish, all are truthy, and none is [===] to a string. *)
Inductive Inherited :=
| Object_constructor
| Object_prototype
| Object_method (name : string).

Definition method_names : list string :=
  [ "__defineGetter__"; "__defineSetter__"; "__lookupGetter__"; "__lookupSetter__";
    "hasOwnProperty"; "isPrototypeOf"; "propertyIsEnumerable";
    "toLocaleString"; "toString"; "valueOf" ].

Definition inherited (key : string) : option Inherited :=
  if decide (key = "constructor") then Some Object_constructor
  else if decide (key = "__proto__") then Some Object_prototype
  else if bool_decide (key ∈ method_names) then Some (Object_method key)
  else None.

(** [String(v)] and [`${v}`] for such a member.  The text of a built-in
    function is the engine's choice ([native_code] gives it, from the
    name of the function); that of [Object.prototype] is fixed. *)
Definition String_inherited (native_code : string -> string) (v : Inherited) : string :=
  match v with
  | Object_constructor => native_code "Object"
  | Object_prototype => "[object Object]"
  | Object_method name => native_code name
  end.

(** *** Numbers: binary64 *)

Definition prec : Z := 53.
Definition emax : Z := 1024.

Abbreviation number := spec_float (only parsing).

(** The number denoted by an integer literal or an integer-valued
    property such as [File.size]. *)
Definition of_Z (z : Z) : number := binary_normalize prec emax z 0 false.

Definition sub : number -> number -> number := SFsub prec emax.
Definition mul : number -> number -> number := SFmul prec emax.
Definition div : number -> number -> number := SFdiv prec emax.

(** [x === y], [x < y], [x > y] on numbers. *)
Definition strict_eq (x y : number) : bool := SFeqb x y.
Definition lt (x y : number) : bool := SFltb x y.
Definition gt (x y : number) : bool := SFltb y x.

Definition isNaN (x : number) : bool :=
  match x with S754_nan => true | _ => false end.

(** [x] is a zero, a finite number or an infinity with sign bit [s];
    in particular it is not NaN. *)
Definition signed (s : bool) (x : number) : Prop :=
  match x with
  | S754_zero s' | S754_infinity s' | S754_finite s' _ _ => s' = s
  | S754_nan => False
  end.

(** [Math.round]: the integer nearest to [x], ties towards +infinity;
    NaN, the infinities and the zeros are returned unchanged, and a
    negative [x] that rounds to zero gives [-0].  A finite float with a
    non-negative exponent is an integer already; otherwise
    [floor (x + 1/2)] is computed exactly on the mantissa. *)
Definition Math_round (x : number) : number :=
  match x with
  | S754_finite s m e =>
      if 0 <=? e then x
      else
        let n := (2 * cond_Zopp s (Z.pos m) + 2 ^ (- e)) / 2 ^ (1 - e) in
        if n =? 0 then S754_zero s else of_Z n
  | _ => x
  end.

(** A number that is a zero or finite is a fraction of two integers:
    the finite number with sign [s], mantissa [m] and exponent [e] is
    [(-1)^s * m * 2^e], that is [numerator / denominator]. *)
Definition isFinite (x : number) : bool :=
  match x with
  | S754_zero _ | S754_finite _ _ _ => true
  | _ => false
  end.

Definition numerator (x : number) : Z :=
  match x with
  | S754_finite s m e => cond_Zopp s (Z.pos m) * 2 ^ Z.max 0 e
  | _ => 0
  end.

Definition denominator (x : number) : Z :=
  match x with
  | S754_finite _ _ e => 2 ^ Z.max 0 (- e)
  | _ => 1
  end.

End JS.

(* ===================================================================== *)
(** ** src/core/config.ts *)
(* ===================================================================== *)

Inductive SupportedFormat := jpeg | png | webp | avif | jxl | heic.

Inductive QualityLevel := lossless | high | balanced | low.

#[global] Instance SupportedFormat_eq_dec : EqDecision SupportedFormat.
Proof. solve_decision. Defined.

#[global] Instance QualityLevel_eq_dec : EqDecision QualityLevel.
Proof. solve_decision. Defined.

Definition all_formats : list SupportedFormat := [jpeg; png; webp; avif; jxl; heic].
Definition all_levels : list QualityLevel := [lossless; high; balanced; low].

(** The string a format is at run time (the members of the union type). *)
Definition format_name (f : SupportedFormat) : string :=
  match f with
  | jpeg => "jpeg" | png => "png" | webp => "webp"
  | avif => "avif" | jxl => "jxl" | heic => "heic"
  end.

Module Config.

(** [interface LevelConfig]; the optional members are options, and
    [extra] is an object of numeric codec parameters. *)
Record LevelConfig := {
  label : string;
  description : string;
  value : option Z;
  isLossless : option bool;
  extra : option (gmap string Z);
  supported : bool
}.

Definition entry (l d : string) (v : option Z) (ll : option bool)
    (x : option (gmap string Z)) (s : bool) : LevelConfig :=
  {| label := l; description := d; value := v; isLossless := ll;
     extra := x; supported := s |}.

Definition COMPRESSION_CONFIG (f : SupportedFormat) (q : QualityLevel) : LevelConfig :=
  match f, q with
  | jpeg, lossless => entry "不支持无损" "JPEG 不支持无损，回退至高质量" (Some 90) None None false
  | jpeg, high     => entry "高质量" "Quality: 90" (Some 90) None None true
  | jpeg, balanced => entry "平衡" "Quality: 80" (Some 80) None None true
  | jpeg, low      => entry "高压缩比" "Quality: 60" (Some 60) None None true
  | png, lossless  => entry "无损" "纯无损格式，压缩优化等级 2" (Some 2) (Some true) None true
  | png, high      => entry "高质量" "压缩优化等级 2" (Some 2) (Some true) None true
  | png, balanced  => entry "平衡" "压缩优化等级 3" (Some 3) (Some true) None true
  | png, low       => entry "高压缩比" "压缩优化等级 4" (Some 4) (Some true) None true
  | webp, lossless => entry "无损" "WebP 无损模式" None (Some true) None true
  | webp, high     => entry "高质量" "Quality: 85" (Some 85) None (Some {["method" := 4]}) true
  | webp, balanced => entry "平衡" "Quality: 75" (Some 75) None (Some {["method" := 4]}) true
  | webp, low      => entry "高压缩比" "Quality: 60" (Some 60) None (Some {["method" := 4]}) true
  | avif, lossless => entry "无损" "AVIF 无损模式" None (Some true) None true
  | avif, high     => entry "高质量" "Quality: 75" (Some 75) None (Some {["speed" := 8]}) true
  | avif, balanced => entry "平衡" "Quality: 65" (Some 65) None (Some {["speed" := 8]}) true
  | avif, low      => entry "高压缩比" "Quality: 50" (Some 50) None (Some {["speed" := 8]}) true
  | jxl, lossless  => entry "无损" "JXL 无损模式" None (Some true) None true
  | jxl, high      => entry "高质量" "Quality: 90" (Some 90) None None true
  | jxl, balanced  => entry "平衡" "Quality: 80" (Some 80) None None true
  | jxl, low       => entry "高压缩比" "Quality: 60" (Some 60) None None true
  | heic, lossless => entry "无损" "-" None None None false
  | heic, high     => entry "高质量" "-" None None None false
  | heic, balanced => entry "平衡" "-" None None None false
  | heic, low      => entry "高压缩比" "-" None None None false
  end.

End Config.

(* ===================================================================== *)
(** ** src/core/engine-wasm.ts: the format tables *)
(* ===================================================================== *)

Module Engine.

(** The own properties of [MIME_TO_FORMAT], an object literal used as a
    map from mime type to format. *)
Definition MIME_TO_FORMAT : gmap string SupportedFormat :=
  list_to_map
    [ ("image/jpeg", jpeg); ("image/jpg", jpeg); ("image/png", png);
      ("image/webp", webp); ("image/avif", avif); ("image/jxl", jxl);
      ("image/heic", heic); ("image/heif", heic) ].

(** What [MIME_TO_FORMAT[key]] evaluates to when it is not [undefined]:
    the format of an own property, or, for a key that is no own
    property, a member inherited from [Object.prototype].  The declared
    type [SupportedFormat] only describes the first. *)
Inductive Member :=
| Format (f : SupportedFormat)
| Inherited (v : JS.Inherited).

(** [MIME_TO_FORMAT[key]]. *)
Definition MIME_TO_FORMAT_at (key : string) : option Member :=
  match MIME_TO_FORMAT !! key with
  | Some f => Some (Format f)
  | None => Inherited <$> JS.inherited key
  end.

Definition FORMAT_TO_MIME (f : SupportedFormat) : string :=
  match f with
  | jpeg => "image/jpeg"
  | png => "image/png"
  | webp => "image/webp"
  | avif => "image/avif"
  | jxl => "image/jxl"
  | heic => "image/heic"
  end.

(** [MIME_TO_FORMAT[mime.toLowerCase()] ?? null]; [None] is [null]. *)
Definition mimeToFormat (mime : string) : option Member :=
  MIME_TO_FORMAT_at (JS.toLowerCase mime).

Definition formatToMime (f : SupportedFormat) : string := FORMAT_TO_MIME f.

End Engine.

(** A format is read as a member where one is expected. *)
Coercion Engine.Format : SupportedFormat >-> Engine.Member.

(* ===================================================================== *)
(** ** The worker's world: files, pixel buffers, codecs, effects *)
(* ===================================================================== *)

Definition bytes := list Byte.byte.

Record File := {
  file_name : string;
  file_type : string;
  file_size : Z;
  file_bytes : bytes
}.

Record Blob := {
  blob_bytes : bytes;
  blob_type : string
}.

Record ImageData := {
  data : bytes;
  width : Z;
  height : Z
}.

(** One image of a HEIF container as libheif hands it out.  [display]
    is what the callback of [image.display] receives: nothing, or the
    pixels written into the buffer it was given. *)
Record HeifImage := {
  get_width : Z;
  get_height : Z;
  display : option bytes
}.

(** The options object of the JXL encoder. *)
Record JxlOptions := {
  effort : Z;
  quality : Z;
  progressive : bool;
  epf : Z;
  lossyPalette : bool;
  decodingSpeedTier : Z;
  photonNoiseIso : Z;
  lossyModular : bool
}.

(** The codec entry points the engine calls, with the options it passes. *)
Inductive CodecCall :=
| JpegDecode | PngDecode | WebpDecode | AvifDecode | JxlDecode
| HeifDecode | HeifDisplay | CanvasDecode
| JpegEncode (options : gmap string Z)
| PngEncode
| OxipngOptimise (options : gmap string Z)
| WebpEncodeLossless
| WebpEncode (options : gmap string Z)
| AvifEncodeLossless
| AvifEncode (options : gmap string Z)
| JxlFactory
| JxlEncode (w h : Z) (options : JxlOptions).

(** The message the worker posts back: an object with [id] and
    [success], and [blob] and [time], or [error], when they are set. *)
Module Message.

Record Response := {
  id : string;
  success : bool;
  blob : option Blob;
  time : option JS.number;
  error : option string
}.

End Message.

(** What the codec libraries and the platform answer.  A call either
    throws or returns; a call that never returns is not represented.
    [native_code] is the text the engine prints for a built-in function
    of a given name. *)
Record Codecs := {
  jpeg_decode : bytes -> JS.Thrown + ImageData;
  png_decode : bytes -> JS.Thrown + ImageData;
  webp_decode : bytes -> JS.Thrown + ImageData;
  avif_decode : bytes -> JS.Thrown + option ImageData;
  jxl_decode : bytes -> JS.Thrown + ImageData;
  heif_decode : bytes -> JS.Thrown + option (list HeifImage);
  canvas_decode : File -> JS.Thrown + ImageData;
  jpeg_encode : ImageData -> gmap string Z -> JS.Thrown + bytes;
  png_encode : ImageData -> JS.Thrown + bytes;
  oxipng_optimise : bytes -> gmap string Z -> JS.Thrown + bytes;
  webp_encode_lossless : ImageData -> JS.Thrown + bytes;
  webp_encode : ImageData -> gmap string Z -> JS.Thrown + bytes;
  avif_encode_lossless : ImageData -> JS.Thrown + bytes;
  avif_encode : ImageData -> gmap string Z -> JS.Thrown + bytes;
  jxl_factory : JS.Thrown + unit;
  jxl_encode : bytes -> Z -> Z -> JxlOptions -> JS.Thrown + option bytes;
  performance_now : nat -> JS.number;
  native_code : string -> string
}.

(** The state of one worker: the JXL module singleton, the number of
    clock readings so far, and what it has done (codec calls, messages
    posted, lines written to the console), oldest first. *)
Record Worker := {
  jxlModuleInstance : bool;
  clock : nat;
  calls : list CodecCall;
  posted : list Message.Response;
  console : list string
}.

Definition fresh_worker : Worker :=
  {| jxlModuleInstance := false; clock := 0; calls := []; posted := []; console := [] |}.

(** Computations of the worker: they read and change its state, and
    end by returning or by throwing. *)
Definition M (A : Type) : Type := Worker -> Worker * (JS.Thrown + A).

#[global] Instance M_ret : MRet M := fun A x w => (w, inr x).

#[global] Instance M_bind : MBind M := fun A B k m w =>
  match m w with
  | (w', inl e) => (w', inl e)
  | (w', inr x) => k x w'
  end.

Definition throw {A} (e : JS.Thrown) : M A := fun w => (w, inl e).

(** [try { body } catch (err) { handler }]. *)
Definition try_catch {A} (body : M A) (handler : JS.Thrown -> M A) : M A :=
  fun w =>
    match body w with
    | (w', inl e) => handler e w'
    | (w', inr x) => (w', inr x)
    end.

(** A call into a codec: it is recorded, then its answer is the result. *)
Definition codec {A} (c : CodecCall) (answer : JS.Thrown + A) : M A :=
  fun w =>
    ({| jxlModuleInstance := jxlModuleInstance w; clock := clock w;
        calls := calls w ++ [c]; posted := posted w; console := console w |},
     answer).

Definition get_jxlModuleInstance : M bool := fun w => (w, inr (jxlModuleInstance w)).

Definition set_jxlModuleInstance (b : bool) : M unit :=
  fun w =>
    ({| jxlModuleInstance := b; clock := clock w;
        calls := calls w; posted := posted w; console := console w |}, inr tt).

Definition now (C : Codecs) : M JS.number :=
  fun w =>
    ({| jxlModuleInstance := jxlModuleInstance w; clock := S (clock w);
        calls := calls w; posted := posted w; console := console w |},
     inr (performance_now C (clock w))).

Definition postMessage (r : Message.Response) : M unit :=
  fun w =>
    ({| jxlModuleInstance := jxlModuleInstance w; clock := clock w;
        calls := calls w; posted := posted w ++ [r]; console := console w |}, inr tt).

Definition console_error (line : string) : M unit :=
  fun w =>
    ({| jxlModuleInstance := jxlModuleInstance w; clock := clock w;
        calls := calls w; posted := posted w; console := console w ++ [line] |}, inr tt).

(** The codec calls a computation makes when started in [w], in order. *)
Definition made {A} (m : M A) (w : Worker) : list CodecCall :=
  drop (length (calls w)) (calls (m w).1).

(* ===================================================================== *)
(** ** src/core/engine-wasm.ts: [decodeImage] and [encodeImage] *)
(* ===================================================================== *)

Module Text.

Definition nl : string := String (ascii_of_nat 10) EmptyString.
Definition quote : string := String (ascii_of_nat 34) EmptyString.

(** A number that is an integer, as a template literal prints it. *)
Definition of_int (z : Z) : string := NilZero.string_of_int (Z.to_int z).

Definition of_bool (b : bool) : string := if b then "true" else "false".

Definition member (key value : string) : string :=
  "  " +:+ quote +:+ key +:+ quote +:+ ": " +:+ value.

(** [JSON.stringify(options, null, 2)] for the JXL options object. *)
Definition JSON_stringify (o : JxlOptions) : string :=
  "{" +:+ nl +:+
  member "effort" (of_int (effort o)) +:+ "," +:+ nl +:+
  member "quality" (of_int (quality o)) +:+ "," +:+ nl +:+
  member "progressive" (of_bool (progressive o)) +:+ "," +:+ nl +:+
  member "epf" (of_int (epf o)) +:+ "," +:+ nl +:+
  member "lossyPalette" (of_bool (lossyPalette o)) +:+ "," +:+ nl +:+
  member "decodingSpeedTier" (of_int (decodingSpeedTier o)) +:+ "," +:+ nl +:+
  member "photonNoiseIso" (of_int (photonNoiseIso o)) +:+ "," +:+ nl +:+
  member "lossyModular" (of_bool (lossyModular o)) +:+ nl +:+
  "}".

End Text.

Module Codec.

Import Engine.

(** The canvas fallback: [createImageBitmap], an off-screen canvas of
    the bitmap's size, [drawImage], [getImageData]. *)
Definition decodeWithCanvas (C : Codecs) (file : File) : M ImageData :=
  codec CanvasDecode (canvas_decode C file).

Definition decodeImage (C : Codecs) (file : File) : M ImageData :=
  let buffer := file_bytes file in
  let format := mimeToFormat (file_type file) in
  match format with
  | Some (Format jpeg) => codec JpegDecode (jpeg_decode C buffer)
  | Some (Format png) => codec PngDecode (png_decode C buffer)
  | Some (Format webp) => codec WebpDecode (webp_decode C buffer)
  | Some (Format avif) =>
      result ← codec AvifDecode (avif_decode C buffer);
      match result with
      | None => throw (JS.ErrorObj "AVIF decode failed")
      | Some img => mret img
      end
  | Some (Format jxl) => codec JxlDecode (jxl_decode C buffer)
  | Some (Format heic) =>
      images ← codec HeifDecode (heif_decode C buffer);
      match images with
      | None | Some [] =>
          throw (JS.ErrorObj "HEIF decoding failed: No images found in file")
      | Some (image :: _) =>
          let width := get_width image in
          let height := get_height image in
          imageDataData ← codec HeifDisplay
            (match display image with
             | None => inl (JS.ErrorObj "HEIF decoding failed during pixel data extraction")
             | Some pixels => inr pixels
             end);
          mret {| data := imageDataData; width := width; height := height |}
      end
  | Some (Inherited _) | None => decodeWithCanvas C file
  end.

(** The effort of the JXL encoder, from the number of pixels
    ([let dynamicEffort = 1] and the chain of [if]s that assigns it).
    Width and height are integers, and so is their product here; the
    thresholds are far below 2^53, so the rounding of a larger product
    to a double would not change which branch is taken. *)
Definition dynamicEffort (totalPixels : Z) : Z :=
  if totalPixels <? 250000 then 5
  else if totalPixels <? 500000 then 3
  else if totalPixels <? 1500000 then 2
  else 1.

(** The quality the HEIC branch hands to the JPEG encoder:
    [quality >= 90 ? 90 : quality >= 80 ? 80 : 60]. *)
Definition heic_quality (quality : Z) : Z :=
  if 90 <=? quality then 90 else if 80 <=? quality then 80 else 60.

(** The [options] object of the JXL branch, with [finalQuality]. *)
Definition jxl_options (imageData : ImageData) (isLossless : bool) (quality : Z)
    : JxlOptions :=
  let totalPixels := width imageData * height imageData in
  let finalQuality := if isLossless then 100 else quality in
  {| effort := dynamicEffort totalPixels;
     quality := finalQuality;
     progressive := false;
     epf := -1;
     lossyPalette := false;
     decodingSpeedTier := 0;
     photonNoiseIso := 0;
     lossyModular := false |}.

(** The message of the error thrown when the JXL encoder throws. *)
Definition jxl_crash_message (err : JS.Thrown) (imageData : ImageData)
    (options : JxlOptions) : string :=
  "JXL 编码内存溢出，请尝试缩小图片尺寸。" +:+ Text.nl +:+ Text.nl +:+
  "[WASM 堆栈]: " +:+ JS.toString err +:+ Text.nl +:+ Text.nl +:+
  "[引擎实际运作参数 (" +:+ Text.of_int (width imageData) +:+ "x" +:+
  Text.of_int (height imageData) +:+ " px)]:" +:+ Text.nl +:+
  Text.JSON_stringify options.

(** [if (!jxlModuleInstance) { jxlModuleInstance = await factory(...) }]. *)
Definition jxl_module (C : Codecs) : M unit :=
  loaded ← get_jxlModuleInstance;
  if loaded : bool then mret tt
  else (_ ← codec JxlFactory (jxl_factory C); set_jxlModuleInstance true).

(** [encodeImage] on a format.  Its [switch] has a [default:] branch
    as well, for a [format] that is none of the six: that branch is
    [encodeImage_default] below. *)
Definition encodeImage (C : Codecs) (imageData : ImageData)
    (format : SupportedFormat) (qualityMode : QualityLevel) : M bytes :=
  let config := Config.COMPRESSION_CONFIG format qualityMode in
  let quality := JS.nullish (Config.value config) 80 in
  let isLossless := JS.nullish (Config.isLossless config) false in
  match format with
  | jpeg =>
      let options := {[ "quality" := quality ]} in
      codec (JpegEncode options) (jpeg_encode C imageData options)
  | png =>
      pngBuffer ← codec PngEncode (png_encode C imageData);
      let options := {[ "level" := 2 ]} in
      codec (OxipngOptimise options) (oxipng_optimise C pngBuffer options)
  | webp =>
      if isLossless then
        codec WebpEncodeLossless (webp_encode_lossless C imageData)
      else
        let options := JS.nullish (Config.extra config) ∅ ∪ {[ "quality" := quality ]} in
        codec (WebpEncode options) (webp_encode C imageData options)
  | avif =>
      if isLossless then
        codec AvifEncodeLossless (avif_encode_lossless C imageData)
      else
        let options :=
          JS.nullish (Config.extra config) {[ "speed" := 8 ]} ∪ {[ "quality" := quality ]} in
        codec (AvifEncode options) (avif_encode C imageData options)
  | jxl =>
      _ ← jxl_module C;
      let inputBuffer := data imageData in
      let options := jxl_options imageData isLossless quality in
      resultView ←
        try_catch
          (codec (JxlEncode (width imageData) (height imageData) options)
             (jxl_encode C inputBuffer (width imageData) (height imageData) options))
          (fun err =>
             _ ← console_error ("JXL WASM Critical Error: " +:+ JS.toString err);
             throw (JS.ErrorObj (jxl_crash_message err imageData options)));
      match resultView with
      | None => throw (JS.ErrorObj "JXL Encode failed inside WASM (returned null)")
      | Some resultData => mret resultData
      end
  | heic =>
      let options := {[ "quality" := heic_quality quality ]} in
      codec (JpegEncode options) (jpeg_encode C imageData options)
  end.

(** [encodeImage] on a [format] that is an inherited member: the table
    lookup [COMPRESSION_CONFIG[format]?.[qualityMode]] gives nothing
    that is used, no [case] of the [switch] is [===] to an object, and
    [default:] throws.  Nothing after the call runs, so the result can
    be taken at any type. *)
Definition encodeImage_default {A} (C : Codecs) (format : JS.Inherited) : M A :=
  throw (JS.ErrorObj ("不支持的编码格式: " +:+ JS.String_inherited (native_code C) format)).

End Codec.

(* ===================================================================== *)
(** ** src/core/compressor.ts *)
(* ===================================================================== *)

Module Compressor.

Import Engine.

(** [compressFile].  The guard [!inputFormat] only stops [null]: a
    format and an inherited member are both truthy.  The call
    [encodeImage(imageData, outputFormat, quality)] is [encodeImage] on
    a format and the default branch of its [switch] on an inherited
    member, which [format ?? inputFormat] is when no target format is
    given and the lookup found one. *)
Definition compressFile (C : Codecs) (file : File)
    (quality : option QualityLevel) (format : option SupportedFormat) : M Blob :=
  let quality := JS.nullish quality balanced in
  match mimeToFormat (file_type file) with
  | None => throw (JS.ErrorObj ("不支持的输入格式: " +:+ file_type file))
  | Some inputFormat =>
      let outputFormat := JS.nullish (Format <$> format) inputFormat in
      imageData ← Codec.decodeImage C file;
      match outputFormat with
      | Format outputFormat =>
          buffer ← Codec.encodeImage C imageData outputFormat quality;
          mret {| blob_bytes := buffer; blob_type := formatToMime outputFormat |}
      | Inherited outputFormat => Codec.encodeImage_default C outputFormat
      end
  end.

(** [Object.keys(MIME_TO_FORMAT)]: the own properties only. *)
Definition SUPPORTED_INPUT_FORMATS : list string := (map_to_list MIME_TO_FORMAT).*1.

Definition isSupportedFile (file : File) : bool :=
  bool_decide (JS.toLowerCase (file_type file) ∈ SUPPORTED_INPUT_FORMATS).

End Compressor.

(* ===================================================================== *)
(** ** src/core/worker.ts *)
(* ===================================================================== *)

Module WorkerScript.

(** [e.data] of a request: [{ id, file, options: { quality, format } }]. *)
Record Request := {
  req_id : string;
  req_file : File;
  req_quality : option QualityLevel;
  req_format : option SupportedFormat
}.

Definition out_of_memory : string := "压缩失败: 内存不足(图片尺寸过大)".

Definition translate (err : JS.Thrown) : string :=
  let errorMsg :=
    match err with
    | JS.ErrorObj message => message
    | _ => JS.toString err
    end in
  if JS.includes errorMsg "unreachable" || JS.includes errorMsg "memory"
     || JS.includes errorMsg "OOM"
  then out_of_memory else errorMsg.

(** [self.onmessage], for one request, run from start to end. *)
Definition onmessage (C : Codecs) (e : Request) : M unit :=
  try_catch
    (start ← now C;
     blob ← Compressor.compressFile C (req_file e) (req_quality e) (req_format e);
     finish ← now C;
     let time := JS.sub finish start in
     postMessage {| Message.id := req_id e; Message.success := true;
                    Message.blob := Some blob; Message.time := Some time;
                    Message.error := None |})
    (fun err =>
       let errorMsg := translate err in
       _ ← console_error ("[Hamster Worker Error] " +:+ JS.toString err +:+
                           " Translated MSG: " +:+ errorMsg);
       postMessage {| Message.id := req_id e; Message.success := false;
                      Message.blob := None; Message.time := None;
                      Message.error := Some errorMsg |}).

End WorkerScript.

(* ===================================================================== *)
(** ** src/utils/file-io.ts *)
(* ===================================================================== *)

Module FileIO.

Definition compressionRatio (original compressed : JS.number) : JS.number :=
  if JS.strict_eq original (JS.of_Z 0) then JS.of_Z 0
  else JS.Math_round
         (JS.mul (JS.div (JS.sub original compressed) original) (JS.of_Z 100)).

(** What [mimeToExtension] returns: a string, or, when [mimeToFormat]
    gave an inherited member, that member. *)
Inductive Extension :=
| Ext (s : string)
| Obj (v : JS.Inherited).

Definition mimeToExtension (mime : string) : Extension :=
  match Engine.mimeToFormat mime with
  | None => Ext "jpg"
  | Some (Engine.Format jpeg) => Ext "jpg"
  | Some (Engine.Format format) => Ext (format_name format)
  | Some (Engine.Inherited v) => Obj v
  end.

(** [`${ext}`]. *)
Definition template (native_code : string -> string) (ext : Extension) : string :=
  match ext with
  | Ext s => s
  | Obj v => JS.String_inherited native_code v
  end.

End FileIO.

(** A string is read as an extension where one is expected. *)
Coercion FileIO.Ext : string >-> FileIO.Extension.

(* ===================================================================== *)
(** ** src/hooks/useCompressor.ts *)
(* ===================================================================== *)

Module Hook.

Inductive FileStatus := pending | compressing | done | error.

#[global] Instance FileStatus_eq_dec : EqDecision FileStatus.
Proof. solve_decision. Defined.

Record CompressorSettings := {
  settings_quality : QualityLevel;
  settings_format : option SupportedFormat
}.

(** [interface CompressedFile]; sizes are byte counts. *)
Record CompressedFile := {
  id : string;
  file : File;
  name : string;
  originalSize : Z;
  compressedSize : option Z;
  ratio : option JS.number;
  time : option JS.number;
  status : FileStatus;
  error_message : option string;
  originalUrl : string;
  compressedUrl : option string;
  compressedBlob : option Blob;
  outputFormat : Engine.Member;
  appliedSettings : option CompressorSettings
}.

(** [{ ...f, status: s, error: e }]. *)
Definition with_status (f : CompressedFile) (s : FileStatus) (e : option string)
    : CompressedFile :=
  {| id := id f; file := file f; name := name f;
     originalSize := originalSize f; compressedSize := compressedSize f;
     ratio := ratio f; time := time f;
     status := s; error_message := e;
     originalUrl := originalUrl f; compressedUrl := compressedUrl f;
     compressedBlob := compressedBlob f; outputFormat := outputFormat f;
     appliedSettings := appliedSettings f |}.

(** The state the hook keeps: the file list, the settings, and the
    worker held by [workerRef] together with the number of workers
    terminated so far. *)
Record State := {
  files : list CompressedFile;
  settings : CompressorSettings;
  workerRef : Worker;
  terminated : nat
}.

Definition engine_crashed : string := "压缩引擎崩溃(不支持该格式或内存不足)".

(** The updater handed to [setFiles] by [w.onerror]. *)
Definition crash_files (prev : list CompressedFile) : list CompressedFile :=
  (fun f =>
     if decide (status f = compressing)
     then with_status f error (Some engine_crashed)
     else f) <$> prev.

(** [w.onerror]: mark the files, terminate the worker, start a new one. *)
Definition onerror (st : State) : State :=
  {| files := crash_files (files st);
     settings := settings st;
     workerRef := fresh_worker;
     terminated := S (terminated st) |}.

(** [processFile], first step: the file with this id is being compressed. *)
Definition start_files (id0 : string) (prev : list CompressedFile)
    : list CompressedFile :=
  (fun f =>
     if decide (id f = id0) then with_status f compressing (error_message f) else f)
  <$> prev.

(** [handleMessage] of [processFile], for a response with this id;
    [createObjectURL] is the platform's.  A success response without
    a blob makes [createObjectURL] throw before [setFiles] is reached,
    which leaves the list as it was. *)
Definition handle_files (createObjectURL : Blob -> string)
    (current : CompressorSettings) (id0 : string) (r : Message.Response)
    (prev : list CompressedFile) : list CompressedFile :=
  if negb (bool_decide (Message.id r = id0)) then prev else
  (fun f =>
     if decide (id f = id0) then
       if Message.success r then
         match Message.blob r with
         | Some b =>
             let size := Z.of_nat (length (blob_bytes b)) in
             {| id := id f; file := file f; name := name f;
                originalSize := originalSize f;
                compressedSize := Some size;
                ratio := Some (FileIO.compressionRatio
                                 (JS.of_Z (originalSize f)) (JS.of_Z size));
                time := Message.time r;
                status := done; error_message := error_message f;
                originalUrl := originalUrl f;
                compressedUrl := Some (createObjectURL b);
                compressedBlob := Some b;
                outputFormat :=
                  JS.nullish (Engine.Format <$> settings_format current) (outputFormat f);
                appliedSettings := appliedSettings f |}
         | None => f
         end
       else with_status f error (Message.error r)
     else f)
  <$> prev.

End Hook.

(* ===================================================================== *)
(** ** The specification's own words, and sample inputs *)
(* ===================================================================== *)

Module Spec.

(** The effort table of the adaptive policy, row by row. *)
Definition effort_tier (pixels : Z) : Z :=
  if decide (pixels < 250000) then 5
  else if decide (250000 <= pixels <= 499999) then 3
  else if decide (500000 <= pixels <= 1499999) then 2
  else 1.

(** [r] is a member of [candidates] nearest to [q]. *)
Definition nearest (candidates : list Z) (q r : Z) : Prop :=
  r ∈ candidates ∧ ∀ c, c ∈ candidates → Z.abs (q - r) <= Z.abs (q - c).

(** The optimize level a quality level stands for in the PNG rows. *)
Definition png_optimize_level (q : QualityLevel) : Z :=
  match q with
  | lossless | high => 2
  | balanced => 3
  | low => 4
  end.

(** The pairs that have no encoder setting. *)
Definition unsupported_pair (f : SupportedFormat) (q : QualityLevel) : Prop :=
  (f = jpeg ∧ q = lossless) ∨ f = heic.

(** The number [x] is the integer [n]. *)
Definition is_integer (x : JS.number) (n : Z) : Prop :=
  JS.isFinite x = true ∧ JS.numerator x = n * JS.denominator x.

(** [n] is the integer nearest to the number [x], the upper one when
    two are equally near: [n - 1/2 <= x < n + 1/2]. *)
Definition nearest_integer (x : JS.number) (n : Z) : Prop :=
  JS.isFinite x = true
  ∧ (2 * n - 1) * JS.denominator x <= 2 * JS.numerator x < (2 * n + 1) * JS.denominator x.

(** [s] is the string [lower], which has no capital, with any of its
    small ASCII letters written as capitals: the strings that ASCII
    case folding sends to [lower]. *)
Definition spelled_letter (a b : ascii) : bool :=
  Ascii.eqb b a
  || ((97 <=? nat_of_ascii a)%nat && (nat_of_ascii a <=? 122)%nat
      && Ascii.eqb b (ascii_of_nat (nat_of_ascii a - 32))).

Fixpoint spelled (lower s : string) : bool :=
  match lower, s with
  | EmptyString, EmptyString => true
  | String a r, String b r' => spelled_letter a b && spelled r r'
  | _, _ => false
  end.

End Spec.

Module Sample.

Definition image (w h : Z) : ImageData := {| data := []; width := w; height := h |}.

Definition encoded : bytes := [Byte.x4a; Byte.x58; Byte.x4c].

(** Codecs that always succeed: decoders give a 4 x 3 image, encoders
    three bytes, and the clock advances by one per reading. *)
Definition codecs : Codecs :=
  {| jpeg_decode := fun _ => inr (image 4 3);
     png_decode := fun _ => inr (image 4 3);
     webp_decode := fun _ => inr (image 4 3);
     avif_decode := fun _ => inr (Some (image 4 3));
     jxl_decode := fun _ => inr (image 4 3);
     heif_decode := fun _ =>
       inr (Some [{| get_width := 4; get_height := 3; display := Some [] |}]);
     canvas_decode := fun _ => inr (image 4 3);
     jpeg_encode := fun _ _ => inr encoded;
     png_encode := fun _ => inr encoded;
     oxipng_optimise := fun _ _ => inr encoded;
     webp_encode_lossless := fun _ => inr encoded;
     webp_encode := fun _ _ => inr encoded;
     avif_encode_lossless := fun _ => inr encoded;
     avif_encode := fun _ _ => inr encoded;
     jxl_factory := inr tt;
     jxl_encode := fun _ _ _ _ => inr (Some encoded);
     performance_now := fun n => JS.of_Z (Z.of_nat n);
     native_code := fun name => "function " +:+ name +:+ "() { [native code] }" |}.

Definition file_of_type (mime : string) : File :=
  {| file_name := "picture"; file_type := mime; file_size := 3;
     file_bytes := encoded |}.

Definition entry (ident : string) (s : Hook.FileStatus) : Hook.CompressedFile :=
  {| Hook.id := ident; Hook.file := file_of_type "image/png";
     Hook.name := "picture"; Hook.originalSize := 3;
     Hook.compressedSize := None; Hook.ratio := None; Hook.time := None;
     Hook.status := s; Hook.error_message := None;
     Hook.originalUrl := "blob:0"; Hook.compressedUrl := None;
     Hook.compressedBlob := None; Hook.outputFormat := png;
     Hook.appliedSettings := None |}.

Definition state : Hook.State :=
  {| Hook.files := [entry "a" Hook.pending; entry "b" Hook.compressing;
                    entry "c" Hook.done; entry "d" Hook.compressing];
     Hook.settings := {| Hook.settings_quality := balanced;
                         Hook.settings_format := None |};
     Hook.workerRef := fresh_worker;
     Hook.terminated := 0 |}.

End Sample.

(* ===================================================================== *)
(** ** src/hooks/useCompressor.ts: the queue of files *)
(* ===================================================================== *)

Module Queue.

Import Hook.

(** What the page answers: [Date.now()] at the call that reads the id
    counter at a given value, [URL.createObjectURL] on files and on
    blobs, and the text its engine prints for a built-in function. *)
Record Platform := {
  date_now : Z -> Z;
  url_of_file : File -> string;
  url_of_blob : Blob -> string;
  page_native_code : string -> string
}.

(** [genId]: [`file-${Date.now()}-${idCounter++}`], for the counter as
    it is before the increment. *)
Definition genId (stamp idCounter : Z) : string :=
  "file-" +:+ Text.of_int stamp +:+ "-" +:+ Text.of_int idCounter.

(** The entry [addFiles] makes for one file. *)
Definition new_entry (current : CompressorSettings) (ident url : string)
    (f : File) : CompressedFile :=
  let inferredFormat := Engine.mimeToFormat (file_type f) in
  {| id := ident; file := f; name := file_name f;
     originalSize := file_size f;
     compressedSize := None; ratio := None; time := None;
     status := pending; error_message := None;
     originalUrl := url; compressedUrl := None; compressedBlob := None;
     outputFormat :=
       JS.nullish (Engine.Format <$> settings_format current)
         (match inferredFormat with
          | Some (Engine.Format heic) => Engine.Format jpeg
          | Some format => format
          | None => Engine.Format jxl
          end);
     appliedSettings := Some current |}.

(** [supported.map(...)]: one entry per file, in order, each with a
    fresh id; the counter after the last one is returned with them. *)
Fixpoint make_entries (P : Platform) (current : CompressorSettings)
    (idCounter : Z) (supported : list File) : list CompressedFile * Z :=
  match supported with
  | [] => ([], idCounter)
  | f :: rest =>
      let e := new_entry current (genId (date_now P idCounter) idCounter)
                 (url_of_file P f) f in
      let '(es, c) := make_entries P current (idCounter + 1) rest in
      (e :: es, c)
  end.

(** The hook with what surrounds it: its state, the module-level id
    counter, and the requests posted to the worker so far. *)
Record Session := {
  hook : State;
  idCounter : Z;
  sent : list WorkerScript.Request
}.

Definition with_files (st : State) (l : list CompressedFile) : State :=
  {| files := l; settings := settings st; workerRef := workerRef st;
     terminated := terminated st |}.

(** [processFile], up to the point where it waits for the answer: the
    entry is marked, and the request goes out with the settings of the
    moment. *)
Definition processFile (ident : string) (f : File) (s : Session) : Session :=
  {| hook := with_files (hook s) (start_files ident (files (hook s)));
     idCounter := idCounter s;
     sent := sent s ++
       [ {| WorkerScript.req_id := ident; WorkerScript.req_file := f;
            WorkerScript.req_quality := Some (settings_quality (settings (hook s)));
            WorkerScript.req_format := settings_format (settings (hook s)) |} ] |}.

(** [addFiles]. *)
Definition addFiles (P : Platform) (newFiles : list File) (s : Session) : Session :=
  let supported := List.filter Compressor.isSupportedFile newFiles in
  match supported with
  | [] => s
  | _ =>
      let '(entries, c) :=
        make_entries P (settings (hook s)) (idCounter s) supported in
      let s' := {| hook := with_files (hook s) (files (hook s) ++ entries);
                   idCounter := c; sent := sent s |} in
      fold_left (fun acc e => processFile (id e) (file e) acc) entries s'
  end.

(** [removeFile] and [clearAll], on the list. *)
Definition removeFile (ident : string) (prev : list CompressedFile)
    : list CompressedFile :=
  List.filter (fun f => negb (bool_decide (id f = ident))) prev.

Definition clearAll (prev : list CompressedFile) : list CompressedFile := [].

(** [retryFile]: nothing for an unknown id, otherwise [processFile] on
    the file of the first entry with that id. *)
Definition retryFile (ident : string) (s : Session) : Session :=
  match List.find (fun f => bool_decide (id f = ident)) (files (hook s)) with
  | None => s
  | Some target => processFile ident (file target) s
  end.

(** [name.replace(/\.[^.]+$/, "")]: the pattern matches at a dot that is
    followed, up to the end, by at least one character and no dot. *)
Definition is_dot (c : ascii) : bool := Ascii.eqb c "."%char.

Fixpoint no_dot (s : string) : bool :=
  match s with
  | EmptyString => true
  | String c r => negb (is_dot c) && no_dot r
  end.

Definition extension_here (s : string) : bool :=
  match s with
  | String c (String _ _ as rest) => is_dot c && no_dot rest
  | _ => false
  end.

Fixpoint baseName (s : string) : string :=
  if extension_here s then EmptyString
  else match s with
       | EmptyString => EmptyString
       | String c r => String c (baseName r)
       end.

(** The file name [downloadFile] and [downloadAll] hand to
    [downloadBlob], when the entry has a blob. *)
Definition download_name (P : Platform) (f : CompressedFile) : option string :=
  match compressedBlob f with
  | None => None
  | Some b =>
      let ext := FileIO.mimeToExtension (blob_type b) in
      Some (baseName (name f) +:+ "_compressed." +:+
            FileIO.template (page_native_code P) ext)
  end.

(** The names [downloadAll] saves, in order. *)
Definition downloadAll (P : Platform) (l : list CompressedFile) : list string :=
  omap (fun f => if decide (status f = done) then download_name P f else None) l.

(** [doneCount] and [isCompressing] of App.tsx. *)
Definition doneCount (l : list CompressedFile) : nat :=
  length (List.filter (fun f => bool_decide (status f = done)) l).

Definition isCompressing (l : list CompressedFile) : bool :=
  existsb (fun f => bool_decide (status f = compressing)) l.

End Queue.

(* ===================================================================== *)
(** ** SettingsBar.tsx: what the buttons do to the settings *)
(* ===================================================================== *)

Module SettingsBar.

Import Hook.

Definition TARGET_FORMATS : list SupportedFormat := [jpeg; png; webp; avif; jxl].

Definition qualityLevels : list QualityLevel := [lossless; high; balanced; low].

(** The table row the quality buttons are drawn from: the target
    format, with JPEG standing in for "keep the original" and for HEIC. *)
Definition actualConfigKey (s : CompressorSettings) : SupportedFormat :=
  match settings_format s with
  | None => jpeg
  | Some heic => jpeg
  | Some f => f
  end.

(** The quality buttons that are drawn. *)
Definition quality_buttons (s : CompressorSettings) : list QualityLevel :=
  List.filter
    (fun level => Config.supported (Config.COMPRESSION_CONFIG (actualConfigKey s) level))
    qualityLevels.

(** A click on a format button. *)
Definition select_format (s : CompressorSettings) (opt : SupportedFormat)
    : CompressorSettings :=
  let nextQuality :=
    if bool_decide (settings_quality s = lossless)
       && negb (Config.supported (Config.COMPRESSION_CONFIG opt lossless))
    then high else settings_quality s in
  {| settings_quality := nextQuality; settings_format := Some opt |}.

(** A click on "keep the original format". *)
Definition keep_original (s : CompressorSettings) : CompressorSettings :=
  {| settings_quality := settings_quality s; settings_format := None |}.

(** A click on a quality button. *)
Definition select_quality (s : CompressorSettings) (level : QualityLevel)
    : CompressorSettings :=
  {| settings_quality := level; settings_format := settings_format s |}.

End SettingsBar.

(** Clicks on the settings bar.  A click is possible when its button is
    drawn: the five format buttons and "keep the original" always, a
    quality button when its level is supported in the row shown; the
    reset link is [resetSettings] of the hook. *)
Module Buttons.

Import Hook.

Inductive Click :=
| ClickFormat (opt : SupportedFormat)
| ClickKeepOriginal
| ClickQuality (level : QualityLevel)
| ClickReset.

Definition drawn (s : CompressorSettings) (c : Click) : Prop :=
  match c with
  | ClickFormat opt => opt ∈ SettingsBar.TARGET_FORMATS
  | ClickQuality level => level ∈ SettingsBar.quality_buttons s
  | ClickKeepOriginal | ClickReset => True
  end.

(** [resetSettings]: balanced, original format. *)
Definition resetSettings : CompressorSettings :=
  {| settings_quality := balanced; settings_format := None |}.

Definition after (s : CompressorSettings) (c : Click) : CompressorSettings :=
  match c with
  | ClickFormat opt => SettingsBar.select_format s opt
  | ClickKeepOriginal => SettingsBar.keep_original s
  | ClickQuality level => SettingsBar.select_quality s level
  | ClickReset => resetSettings
  end.

(** [clicks s l s']: the clicks [l], each on a drawn button, lead from
    the settings [s] to [s']. *)
Inductive clicks : CompressorSettings -> list Click -> CompressorSettings -> Prop :=
| clicks_nil s : clicks s [] s
| clicks_cons s c l s' : drawn s c -> clicks (after s c) l s' -> clicks s (c :: l) s'.

(** Settings whose target format, when there is one, is not HEIC and
    supports the quality level. *)
Definition well_chosen (s : CompressorSettings) : Prop :=
  match settings_format s with
  | None => True
  | Some f =>
      f <> heic
      /\ Config.supported (Config.COMPRESSION_CONFIG f (settings_quality s)) = true
  end.

End Buttons.

(** Strings without an ASCII capital. *)
Definition capital (c : ascii) : bool :=
  ((65 <=? nat_of_ascii c) && (nat_of_ascii c <=? 90))%nat.

Fixpoint no_capital (s : string) : bool :=
  match s with
  | EmptyString => true
  | String c r => negb (capital c) && no_capital r
  end.

(** Strings without a minus sign. *)
Fixpoint no_dash (s : string) : bool :=
  match s with
  | EmptyString => true
  | String c r => negb (Ascii.eqb c "-"%char) && no_dash r
  end.

(** A number that is a zero or finite, with sign bit [s], a mantissa
    below [2 ^ 53] and an exponent of at most [top]. *)
Definition shaped (s : bool) (top : Z) (x : JS.number) : Prop :=
  match x with
  | S754_zero s' => s' = s
  | S754_finite s' m e => s' = s /\ Z.pos m < 2 ^ 53 /\ e <= top
  | _ => False
  end.


(** More sample inputs: codecs that fail in one place, a worker that
    has the JXL module, a page whose clock stands still, and a session. *)
Module Fixture.

Definition with_jpeg_decode (answer : JS.Thrown + ImageData) : Codecs :=
  {| jpeg_decode := fun _ => answer;
     png_decode := png_decode Sample.codecs;
     webp_decode := webp_decode Sample.codecs;
     avif_decode := avif_decode Sample.codecs;
     jxl_decode := jxl_decode Sample.codecs;
     heif_decode := heif_decode Sample.codecs;
     canvas_decode := canvas_decode Sample.codecs;
     jpeg_encode := jpeg_encode Sample.codecs;
     png_encode := png_encode Sample.codecs;
     oxipng_optimise := oxipng_optimise Sample.codecs;
     webp_encode_lossless := webp_encode_lossless Sample.codecs;
     webp_encode := webp_encode Sample.codecs;
     avif_encode_lossless := avif_encode_lossless Sample.codecs;
     avif_encode := avif_encode Sample.codecs;
     jxl_factory := jxl_factory Sample.codecs;
     jxl_encode := jxl_encode Sample.codecs;
     performance_now := performance_now Sample.codecs;
     native_code := native_code Sample.codecs |}.

Definition with_jxl (factory : JS.Thrown + unit)
    (answer : JS.Thrown + option bytes) : Codecs :=
  {| jpeg_decode := jpeg_decode Sample.codecs;
     png_decode := png_decode Sample.codecs;
     webp_decode := webp_decode Sample.codecs;
     avif_decode := avif_decode Sample.codecs;
     jxl_decode := jxl_decode Sample.codecs;
     heif_decode := heif_decode Sample.codecs;
     canvas_decode := canvas_decode Sample.codecs;
     jpeg_encode := jpeg_encode Sample.codecs;
     png_encode := png_encode Sample.codecs;
     oxipng_optimise := oxipng_optimise Sample.codecs;
     webp_encode_lossless := webp_encode_lossless Sample.codecs;
     webp_encode := webp_encode Sample.codecs;
     avif_encode_lossless := avif_encode_lossless Sample.codecs;
     avif_encode := avif_encode Sample.codecs;
     jxl_factory := factory;
     jxl_encode := fun _ _ _ _ => answer;
     performance_now := performance_now Sample.codecs;
     native_code := native_code Sample.codecs |}.

Definition corrupt : JS.Thrown := JS.ErrorObj "corrupt data".

Definition trap : JS.Thrown := JS.OtherValue "RuntimeError: unreachable".

Definition loaded_worker : Worker :=
  {| jxlModuleInstance := true; clock := 0; calls := []; posted := []; console := [] |}.

Definition page : Queue.Platform :=
  {| Queue.date_now := fun _ => 1700000000000;
     Queue.url_of_file := fun f => "blob:" +:+ file_name f;
     Queue.url_of_blob := fun b => "blob:out";
     Queue.page_native_code := native_code Sample.codecs |}.

Definition photo (name mime : string) : File :=
  {| file_name := name; file_type := mime; file_size := 3; file_bytes := Sample.encoded |}.

Definition session : Queue.Session :=
  {| Queue.hook := Sample.state; Queue.idCounter := 4; Queue.sent := [] |}.

(** A file whose type is the name of a member of [Object.prototype]. *)
Definition odd_file : File := photo "odd.bin" "constructor".

Definition request : WorkerScript.Request :=
  {| WorkerScript.req_id := "b"; WorkerScript.req_file := photo "b.png" "image/png";
     WorkerScript.req_quality := Some balanced; WorkerScript.req_format := None |}.

End Fixture.

(** The three statements of the specification that the code does not
    satisfy, as predicates of the input. *)
Module Claimed.

(** A PNG encode runs the optimizer at the level of the table row. *)
Definition png_level (C : Codecs) (img : ImageData) (q : QualityLevel)
    (w : Worker) : Prop :=
  made (Codec.encodeImage C img png q) w =
    [PngEncode; OxipngOptimise {[ "level" := Spec.png_optimize_level q ]}].

(** A file whose mime type is in no table row is decoded on the canvas
    by the compression pipeline. *)
Definition canvas_fallback (C : Codecs) (file : File) (q : option QualityLevel)
    (format : option SupportedFormat) (w : Worker) : Prop :=
  Engine.MIME_TO_FORMAT !! JS.toLowerCase (file_type file) = None ->
  CanvasDecode ∈ made (Compressor.compressFile C file q format) w.

(** The ratio is the quotient [(original - compressed) / original * 100]
    of the two byte counts, rounded to the nearest integer, the upper
    one of two: [floor (100 * (original - compressed) / original + 1/2)]. *)
Definition rounded_ratio (original compressed : Z) : Z :=
  (200 * (original - compressed) + original) / (2 * original).

Definition ratio_formula (original compressed : Z) : Prop :=
  original <> 0 ->
  Spec.is_integer (FileIO.compressionRatio (JS.of_Z original) (JS.of_Z compressed))
    (rounded_ratio original compressed).

End Claimed.

(* ===================================================================== *)
(** ** The parameter table *)
(* ===================================================================== *)

(** C8. For every format and quality level of the two closed
    enumerations, the table entry has [supported = true], except exactly
    for (jpeg, lossless) and for heic at each of the four levels, where
    it has [supported = false]. *)
Theorem resolve_supported_exactly (f : SupportedFormat) (q : QualityLevel) :
  (Config.supported (Config.COMPRESSION_CONFIG f q) = false ↔ Spec.unsupported_pair f q)
  ∧ (Config.supported (Config.COMPRESSION_CONFIG f q) = true ↔ ¬ Spec.unsupported_pair f q).
Proof.
  unfold Spec.unsupported_pair.
  destruct f, q; cbn; intuition congruence.
Qed.

(** The two enumerations are complete, and the unsupported cells of the
    table, listed by running it, are those five. *)
Lemma all_formats_complete (f : SupportedFormat) : f ∈ all_formats.
Proof. destruct f; unfold all_formats; set_solver. Qed.

Lemma all_levels_complete (q : QualityLevel) : q ∈ all_levels.
Proof. destruct q; unfold all_levels; set_solver. Qed.

Example unsupported_cells :
  List.filter (fun c => negb (Config.supported (Config.COMPRESSION_CONFIG c.1 c.2)))
    (list_prod all_formats all_levels)
  = [(jpeg, lossless); (heic, lossless); (heic, high); (heic, balanced); (heic, low)].
Proof. reflexivity. Qed.

(* ===================================================================== *)
(** ** Mime types and formats *)
(* ===================================================================== *)

(** C10. For every format of the six-format enumeration, mapping it to
    its mime type with [formatToMime] and back with [mimeToFormat] gives
    the format again. *)
Theorem mimeToFormat_formatToMime (f : SupportedFormat) :
  Engine.mimeToFormat (Engine.formatToMime f) = Some (Engine.Format f).
Proof. destruct f; vm_compute; reflexivity. Qed.

(** The table, key by key, and what indexing it finds. *)
Lemma lookup_mime (k : string) :
  Engine.MIME_TO_FORMAT !! k =
    if decide (k = "image/jpeg") then Some jpeg
    else if decide (k = "image/jpg") then Some jpeg
    else if decide (k = "image/png") then Some png
    else if decide (k = "image/webp") then Some webp
    else if decide (k = "image/avif") then Some avif
    else if decide (k = "image/jxl") then Some jxl
    else if decide (k = "image/heic") then Some heic
    else if decide (k = "image/heif") then Some heic
    else None.
Proof.
  unfold Engine.MIME_TO_FORMAT. cbn [list_to_map foldr uncurry fst snd].
  repeat (rewrite lookup_insert; case_decide;
          [subst; repeat (rewrite decide_True by done || rewrite decide_False by done);
           try done|]).
  rewrite lookup_empty. repeat (rewrite decide_False by congruence). done.
Qed.

(** Case folding, character by character: the strings that fold to a
    string without capitals are its spellings. *)
Lemma lower_spelled a b :
  capital a = false ->
  JS.lower_ascii b = a <-> Spec.spelled_letter a b = true.
Proof.
  unfold capital, JS.lower_ascii, Spec.spelled_letter. intros Ha.
  pose proof (nat_ascii_bounded a) as Ba. pose proof (nat_ascii_bounded b) as Bb.
  rewrite orb_true_iff, !andb_true_iff, !Nat.leb_le, !Ascii.eqb_eq.
  apply andb_false_iff in Ha. rewrite !Nat.leb_gt in Ha.
  destruct ((65 <=? nat_of_ascii b)%nat && (nat_of_ascii b <=? 90)%nat) eqn:Hb.
  - apply andb_true_iff in Hb as [H1 H2]. apply Nat.leb_le in H1, H2. split.
    + intros H. assert (Hn : nat_of_ascii a = (nat_of_ascii b + 32)%nat).
      { rewrite <- H. apply nat_ascii_embedding. lia. }
      right. split; [lia|]. rewrite Hn, Nat.add_sub. symmetry. apply ascii_nat_embedding.
    + intros [->|[Hs ->]]; [lia|].
      rewrite nat_ascii_embedding by lia.
      replace (nat_of_ascii a - 32 + 32)%nat with (nat_of_ascii a) by lia.
      apply ascii_nat_embedding.
  - apply andb_false_iff in Hb. rewrite !Nat.leb_gt in Hb. split.
    + intros ->. left. reflexivity.
    + intros [->|[Hs ->]]; [reflexivity|].
      rewrite nat_ascii_embedding in Hb by lia. lia.
Qed.

Lemma toLowerCase_spelled lower : forall s,
  no_capital lower = true ->
  JS.toLowerCase s = lower <-> Spec.spelled lower s = true.
Proof.
  induction lower as [|a r IH]; intros [|b r']; cbn [no_capital JS.toLowerCase Spec.spelled];
    intros Hn; try (split; discriminate); [split; reflexivity|].
  apply andb_true_iff in Hn as [Ha Hr]. apply negb_true_iff in Ha.
  rewrite andb_true_iff, <- (lower_spelled a b Ha), <- (IH r' Hr).
  split; [intros [= -> ->]; split; reflexivity | intros [-> ->]; reflexivity].
Qed.

Lemma lower_ascii_no_capital c : capital (JS.lower_ascii c) = false.
Proof.
  unfold capital, JS.lower_ascii. pose proof (nat_ascii_bounded c) as Bc.
  destruct ((65 <=? nat_of_ascii c)%nat && (nat_of_ascii c <=? 90)%nat) eqn:Hc.
  - apply andb_true_iff in Hc as [H1 H2]. apply Nat.leb_le in H1, H2.
    rewrite nat_ascii_embedding by lia.
    apply andb_false_iff. right. apply Nat.leb_gt. lia.
  - exact Hc.
Qed.

Lemma toLowerCase_no_capital s : no_capital (JS.toLowerCase s) = true.
Proof.
  induction s as [|c r IH]; [reflexivity|]. cbn [JS.toLowerCase no_capital].
  rewrite lower_ascii_no_capital, IH. reflexivity.
Qed.

(** A folded string is the name of no inherited method: each of those
    names has a capital. *)
Lemma folded_no_method s : bool_decide (JS.toLowerCase s ∈ JS.method_names) = false.
Proof.
  apply bool_decide_eq_false. intros H.
  pose proof (toLowerCase_no_capital s) as Hn.
  unfold JS.method_names in H.
  repeat (apply elem_of_cons in H as [H|H]; [rewrite H in Hn; discriminate|]).
  inversion H.
Qed.

(** A spelling test is an equality after folding. *)
Lemma spelled_decide lower mime :
  no_capital lower = true ->
  Spec.spelled lower mime = bool_decide (JS.toLowerCase mime = lower).
Proof.
  intros Hl. apply eq_true_iff_eq.
  rewrite bool_decide_eq_true. symmetry. apply toLowerCase_spelled, Hl.
Qed.

(** [mimeToFormat], decided on its folded argument, and on the spelling
    of its argument. *)
Lemma mimeToFormat_folded mime :
  Engine.mimeToFormat mime =
    let k := JS.toLowerCase mime in
    if decide (k = "image/jpeg") then Some (Engine.Format jpeg)
    else if decide (k = "image/jpg") then Some (Engine.Format jpeg)
    else if decide (k = "image/png") then Some (Engine.Format png)
    else if decide (k = "image/webp") then Some (Engine.Format webp)
    else if decide (k = "image/avif") then Some (Engine.Format avif)
    else if decide (k = "image/jxl") then Some (Engine.Format jxl)
    else if decide (k = "image/heic") then Some (Engine.Format heic)
    else if decide (k = "image/heif") then Some (Engine.Format heic)
    else if decide (k = "constructor") then Some (Engine.Inherited JS.Object_constructor)
    else if decide (k = "__proto__") then Some (Engine.Inherited JS.Object_prototype)
    else None.
Proof.
  unfold Engine.mimeToFormat, Engine.MIME_TO_FORMAT_at, JS.inherited.
  rewrite lookup_mime, folded_no_method. cbn zeta.
  generalize (JS.toLowerCase mime). intros k.
  repeat (case_decide; [subst k; reflexivity|]). reflexivity.
Qed.

Lemma mimeToFormat_spelled mime :
  Engine.mimeToFormat mime =
    if Spec.spelled "image/jpeg" mime then Some (Engine.Format jpeg)
    else if Spec.spelled "image/jpg" mime then Some (Engine.Format jpeg)
    else if Spec.spelled "image/png" mime then Some (Engine.Format png)
    else if Spec.spelled "image/webp" mime then Some (Engine.Format webp)
    else if Spec.spelled "image/avif" mime then Some (Engine.Format avif)
    else if Spec.spelled "image/jxl" mime then Some (Engine.Format jxl)
    else if Spec.spelled "image/heic" mime then Some (Engine.Format heic)
    else if Spec.spelled "image/heif" mime then Some (Engine.Format heic)
    else if Spec.spelled "constructor" mime
      then Some (Engine.Inherited JS.Object_constructor)
    else if Spec.spelled "__proto__" mime
      then Some (Engine.Inherited JS.Object_prototype)
    else None.
Proof.
  rewrite !spelled_decide by reflexivity. rewrite mimeToFormat_folded. cbn zeta.
  generalize (JS.toLowerCase mime). intros k.
  repeat (case_decide; [rewrite bool_decide_eq_true_2 by assumption; reflexivity
                       |rewrite bool_decide_eq_false_2 by assumption]).
  reflexivity.
Qed.

(** [isSupportedFile] is the lookup among the own keys. *)
Lemma supported_iff_own file :
  Compressor.isSupportedFile file = true <->
  exists f, Engine.MIME_TO_FORMAT !! JS.toLowerCase (file_type file) = Some f.
Proof.
  unfold Compressor.isSupportedFile, Compressor.SUPPORTED_INPUT_FORMATS.
  rewrite bool_decide_eq_true, list_elem_of_fmap. split.
  - intros ([k f] & -> & H). exists f. apply elem_of_map_to_list in H. exact H.
  - intros [f H]. exists (JS.toLowerCase (file_type file), f). split; [reflexivity|].
    apply elem_of_map_to_list. exact H.
Qed.

Lemma mimeToFormat_output (f : SupportedFormat) :
  Engine.mimeToFormat (Engine.FORMAT_TO_MIME f) = Some (Engine.Format f).
Proof. destruct f; vm_compute; reflexivity. Qed.

Lemma supported_iff_format file :
  Compressor.isSupportedFile file = true <->
  exists f, Engine.mimeToFormat (file_type file) = Some (Engine.Format f).
Proof.
  rewrite supported_iff_own. unfold Engine.mimeToFormat, Engine.MIME_TO_FORMAT_at.
  destruct (Engine.MIME_TO_FORMAT !! _) as [f|].
  - split; intros _; exists f; reflexivity.
  - split; intros [f H]; [discriminate|].
    destruct (JS.inherited _); discriminate.
Qed.

(* ===================================================================== *)
(** ** Running the worker's computations *)
(* ===================================================================== *)

Lemma drop_calls (l k : list CodecCall) : drop (length l) (l ++ k) = k.
Proof. apply drop_app_length. Qed.

(** Unfold the primitives of [M] and project the worker's fields. *)
Ltac run :=
  unfold made, mbind, M_bind, mret, M_ret, codec, throw, try_catch,
    get_jxlModuleInstance, set_jxlModuleInstance, now, postMessage, console_error;
  cbn [fst snd calls posted jxlModuleInstance clock console].

(** Case on every codec answer the goal still inspects. *)
Ltac answers :=
  repeat match goal with
         | |- context [match ?x with _ => _ end] =>
             match type of x with
             | sum _ _ => destruct x eqn:?
             | option _ => destruct x eqn:?
             | list _ => destruct x eqn:?
             | bool => destruct x eqn:?
             | unit => destruct x
             end; run
         end.

(** What a JXL encode calls: the factory when the singleton is not there
    yet, then, unless the factory threw, the encoder. *)
Lemma made_jxl C img q w :
  made (Codec.encodeImage C img jxl q) w =
    ((if jxlModuleInstance w then [] else [JxlFactory]) ++
     match (if jxlModuleInstance w then inr tt else jxl_factory C) with
     | inl _ => []
     | inr _ =>
         [JxlEncode (width img) (height img)
            (Codec.jxl_options img
               (JS.nullish (Config.isLossless (Config.COMPRESSION_CONFIG jxl q)) false)
               (JS.nullish (Config.value (Config.COMPRESSION_CONFIG jxl q)) 80))]
     end)%list.
Proof.
  unfold Codec.encodeImage, Codec.jxl_module. run.
  destruct (jxlModuleInstance w) eqn:Hw; run.
  - destruct (jxl_encode C _ _ _ _) as [e|[r|]]; run;
      apply (drop_calls _ [_]).
  - destruct (jxl_factory C) as [e|[]]; run.
    + apply (drop_calls _ [_]).
    + destruct (jxl_encode C _ _ _ _) as [e|[r|]]; run;
        rewrite <- app_assoc; apply (drop_calls _ [_; _]).
Qed.

Lemma made_jxl_inv C img q w wd ht o :
  JxlEncode wd ht o ∈ made (Codec.encodeImage C img jxl q) w ->
  wd = width img /\ ht = height img /\
  o = Codec.jxl_options img
        (JS.nullish (Config.isLossless (Config.COMPRESSION_CONFIG jxl q)) false)
        (JS.nullish (Config.value (Config.COMPRESSION_CONFIG jxl q)) 80).
Proof.
  rewrite made_jxl. intros H.
  apply elem_of_app in H as [H|H].
  - destruct (jxlModuleInstance w); [inversion H|].
    apply list_elem_of_singleton in H. discriminate.
  - destruct (if jxlModuleInstance w then _ else _); [inversion H|].
    apply list_elem_of_singleton in H. injection H as -> -> ->. done.
Qed.

(** The encoder is reached whenever the module is there or loads. *)
Lemma jxl_encode_reached C img q w :
  jxlModuleInstance w = true \/ jxl_factory C = inr tt ->
  exists o, JxlEncode (width img) (height img) o
              ∈ made (Codec.encodeImage C img jxl q) w.
Proof.
  intros H. rewrite made_jxl. eexists.
  apply elem_of_app. right.
  destruct H as [-> | H]; [|destruct (jxlModuleInstance w); [|rewrite H]];
    apply list_elem_of_singleton; reflexivity.
Qed.

(** What a PNG encode calls: the PNG encoder, then, unless it threw, the
    optimizer. *)
Lemma made_png C img q w :
  made (Codec.encodeImage C img png q) w =
    PngEncode ::
    match png_encode C img with
    | inl _ => []
    | inr _ => [OxipngOptimise {[ "level" := 2 ]}]
    end.
Proof.
  unfold Codec.encodeImage. run.
  destruct (png_encode C img) as [e|b]; run.
  - apply (drop_calls _ [_]).
  - rewrite <- app_assoc. apply (drop_calls _ [_; _]).
Qed.

(** Decoding, encoding and compressing post no message. *)
Lemma posted_decodeImage C file w : posted (Codec.decodeImage C file w).1 = posted w.
Proof.
  unfold Codec.decodeImage, Codec.decodeWithCanvas.
  destruct (Engine.mimeToFormat (file_type file)) as [[[]|v]|]; run; answers; reflexivity.
Qed.

Lemma posted_encodeImage C img f q w :
  posted (Codec.encodeImage C img f q w).1 = posted w.
Proof.
  unfold Codec.encodeImage, Codec.jxl_module.
  destruct f; run; answers; reflexivity.
Qed.

(** [compressFile] on a file whose type is a key of the table: decode,
    encode to the target format, or to the format of the input when
    there is no target, and wrap the result. *)
Lemma compressFile_known C file q format inputFormat :
  Engine.mimeToFormat (file_type file) = Some (Engine.Format inputFormat) ->
  Compressor.compressFile C file q format =
    (imageData ← Codec.decodeImage C file;
     buffer ← Codec.encodeImage C imageData (JS.nullish format inputFormat)
                (JS.nullish q balanced);
     mret {| blob_bytes := buffer;
             blob_type := Engine.formatToMime (JS.nullish format inputFormat) |}).
Proof.
  intros H. unfold Compressor.compressFile. rewrite H. destruct format; reflexivity.
Qed.

(** [compressFile] on a file whose type names an inherited member:
    decode, then encode to the target format when there is one, and
    otherwise fall to the default branch of the encoder. *)
Lemma compressFile_inherited C file q format v :
  Engine.mimeToFormat (file_type file) = Some (Engine.Inherited v) ->
  Compressor.compressFile C file q format =
    (imageData ← Codec.decodeImage C file;
     match format with
     | Some f =>
         buffer ← Codec.encodeImage C imageData f (JS.nullish q balanced);
         mret {| blob_bytes := buffer; blob_type := Engine.formatToMime f |}
     | None => Codec.encodeImage_default C v
     end).
Proof.
  intros H. unfold Compressor.compressFile. rewrite H. destruct format; reflexivity.
Qed.

Lemma posted_compressFile C file q format w :
  posted (Compressor.compressFile C file q format w).1 = posted w.
Proof.
  pose proof (posted_decodeImage C file w) as Hd.
  destruct (Engine.mimeToFormat (file_type file)) as [[inputFormat|v]|] eqn:Hf.
  - rewrite (compressFile_known _ _ _ _ _ Hf). run.
    destruct (Codec.decodeImage C file w) as [w1 [e|img]]; cbn [fst] in *; [exact Hd|].
    pose proof (posted_encodeImage C img (JS.nullish format inputFormat)
                  (JS.nullish q balanced) w1) as He.
    destruct (Codec.encodeImage C img _ _ w1) as [w2 [e|buffer]]; cbn [fst] in *; congruence.
  - rewrite (compressFile_inherited _ _ _ _ _ Hf). run.
    destruct (Codec.decodeImage C file w) as [w1 [e|img]]; cbn [fst] in *; [exact Hd|].
    destruct format as [f|]; [|unfold Codec.encodeImage_default; run; exact Hd].
    pose proof (posted_encodeImage C img f (JS.nullish q balanced) w1) as He.
    destruct (Codec.encodeImage C img _ _ w1) as [w2 [e|buffer]]; cbn [fst] in *; congruence.
  - unfold Compressor.compressFile. rewrite Hf. reflexivity.
Qed.

(** Read a log that was extended from where it started. *)
Ltac log := rewrite <- ?app_assoc, ?drop_app_length, ?drop_all, ?app_nil_r.

(** A call that differs from every member of a list is not in it. *)
Ltac absent :=
  let Hin := fresh "Hin" in
  intros Hin;
  repeat (apply elem_of_cons in Hin as [Hin|Hin]; [discriminate|]);
  inversion Hin.

Lemma decodeImage_log C file w :
  calls (Codec.decodeImage C file w).1
    = (calls w ++ made (Codec.decodeImage C file) w)%list
  /\ jxlModuleInstance (Codec.decodeImage C file w).1 = jxlModuleInstance w.
Proof.
  unfold Codec.decodeImage, Codec.decodeWithCanvas.
  destruct (Engine.mimeToFormat (file_type file)) as [[[]|v]|]; run; answers;
    split; log; reflexivity.
Qed.

Lemma encodeImage_log C img f q w :
  calls (Codec.encodeImage C img f q w).1
    = (calls w ++ made (Codec.encodeImage C img f q) w)%list.
Proof.
  unfold Codec.encodeImage, Codec.jxl_module.
  destruct f; run; answers; log; reflexivity.
Qed.

(** The calls of [compressFile] are those of the decode, then, when it
    returned, those of the encode. *)
Lemma compressFile_made C file q format inputFormat w :
  Engine.mimeToFormat (file_type file) = Some (Engine.Format inputFormat) ->
  made (Compressor.compressFile C file q format) w =
    (made (Codec.decodeImage C file) w ++
     match Codec.decodeImage C file w with
     | (w1, inr img) =>
         made (Codec.encodeImage C img (JS.nullish format inputFormat)
                 (JS.nullish q balanced)) w1
     | _ => []
     end)%list.
Proof.
  intros Hf. rewrite (compressFile_known _ _ _ _ _ Hf).
  unfold made at 1. unfold mbind, M_bind.
  destruct (decodeImage_log C file w) as [Hd _].
  destruct (Codec.decodeImage C file w) as [w1 [e|img]] eqn:Ed; cbn [fst snd] in *.
  - rewrite Hd. log. reflexivity.
  - pose proof (encodeImage_log C img (JS.nullish format inputFormat)
                  (JS.nullish q balanced) w1) as He.
    destruct (Codec.encodeImage C img _ _ w1) as [w2 [e|buffer]] eqn:Ee;
      cbn [fst snd] in *; unfold mret, M_ret; cbn [fst];
      rewrite He, Hd; log; reflexivity.
Qed.

(** The same for a file whose type names an inherited member. *)
Lemma compressFile_made_inherited C file q format v w :
  Engine.mimeToFormat (file_type file) = Some (Engine.Inherited v) ->
  made (Compressor.compressFile C file q format) w =
    (made (Codec.decodeImage C file) w ++
     match Codec.decodeImage C file w, format with
     | (w1, inr img), Some f =>
         made (Codec.encodeImage C img f (JS.nullish q balanced)) w1
     | _, _ => []
     end)%list.
Proof.
  intros Hf. rewrite (compressFile_inherited _ _ _ _ _ Hf).
  unfold made at 1. unfold mbind, M_bind.
  destruct (decodeImage_log C file w) as [Hd _].
  destruct (Codec.decodeImage C file w) as [w1 [e|img]] eqn:Ed; cbn [fst snd] in *.
  - rewrite Hd. log. reflexivity.
  - destruct format as [f|].
    + pose proof (encodeImage_log C img f (JS.nullish q balanced) w1) as He.
      destruct (Codec.encodeImage C img _ _ w1) as [w2 [e|buffer]] eqn:Ee;
        cbn [fst snd] in *; unfold mret, M_ret; cbn [fst];
        rewrite He, Hd; log; reflexivity.
    + unfold Codec.encodeImage_default, throw. cbn [fst]. rewrite Hd. log. reflexivity.
Qed.

(* ===================================================================== *)
(** ** The adaptive policy of the JXL encoder *)
(* ===================================================================== *)

(** Case on every comparison with a threshold, then conclude by arithmetic. *)
Ltac thresholds :=
  repeat match goal with
         | |- context [Z.ltb ?a ?b] => destruct (Z.ltb_spec a b)
         end;
  lia.

Lemma dynamicEffort_tier pixels : Codec.dynamicEffort pixels = Spec.effort_tier pixels.
Proof.
  unfold Codec.dynamicEffort, Spec.effort_tier.
  repeat case_decide; thresholds.
Qed.

Lemma dynamicEffort_mono p p' :
  p <= p' -> Codec.dynamicEffort p' <= Codec.dynamicEffort p.
Proof.
  unfold Codec.dynamicEffort. intros H. thresholds.
Qed.

(** C3. For every JXL encode of an image of width w and height h, the
    effort passed to the encoder is the step function of the pixel count
    w*h (5 below 250,000; 3 below 500,000; 2 below 1,500,000; otherwise
    1), whatever the quality level; and of two images, the one with at
    least as many pixels gets an effort that is at most the other's. *)
Theorem jxl_effort_tier C C' img img' q q' w w' o o' :
  JxlEncode (width img) (height img) o ∈ made (Codec.encodeImage C img jxl q) w ->
  JxlEncode (width img') (height img') o' ∈ made (Codec.encodeImage C' img' jxl q') w' ->
  effort o = Spec.effort_tier (width img * height img)
  /\ effort o' = Spec.effort_tier (width img' * height img')
  /\ (width img * height img <= width img' * height img' -> effort o' <= effort o).
Proof.
  intros H H'.
  apply made_jxl_inv in H as (_ & _ & ->). apply made_jxl_inv in H' as (_ & _ & ->).
  cbn [effort Codec.jxl_options]. rewrite <- !dynamicEffort_tier.
  split; [reflexivity|]. split; [reflexivity|]. apply dynamicEffort_mono.
Qed.

Lemma jxl_effort_tier_witness :
  let small := Codec.jxl_options (Sample.image 4 3) false 90 in
  let large := Codec.jxl_options (Sample.image 2000 1500) true 80 in
  JxlEncode 4 3 small
    ∈ made (Codec.encodeImage Sample.codecs (Sample.image 4 3) jxl high) fresh_worker
  /\ JxlEncode 2000 1500 large
    ∈ made (Codec.encodeImage Sample.codecs (Sample.image 2000 1500) jxl lossless)
        fresh_worker
  /\ effort small = 5 /\ effort large = 1 /\ effort large <= effort small.
Proof.
  intros small large.
  assert (H1 : JxlEncode 4 3 small
    ∈ made (Codec.encodeImage Sample.codecs (Sample.image 4 3) jxl high) fresh_worker).
  { rewrite made_jxl. apply list_elem_of_In. right. left. reflexivity. }
  assert (H2 : JxlEncode 2000 1500 large
    ∈ made (Codec.encodeImage Sample.codecs (Sample.image 2000 1500) jxl lossless)
        fresh_worker).
  { rewrite made_jxl. apply list_elem_of_In. right. left. reflexivity. }
  destruct (jxl_effort_tier Sample.codecs Sample.codecs
              (Sample.image 4 3) (Sample.image 2000 1500) high lossless
              fresh_worker fresh_worker small large H1 H2) as (E1 & E2 & Hle).
  split; [exact H1|]. split; [exact H2|].
  split; [rewrite E1; reflexivity|]. split; [rewrite E2; reflexivity|].
  apply Hle. vm_compute. discriminate.
Defined.

(** C4. For every JXL encode, when the table entry of the quality level
    has [isLossless] true, the quality passed to the encoder is 100,
    whatever numeric value was resolved; when [isLossless] is false (or
    absent, which the code reads as false), it is the resolved numeric
    value. *)
Theorem jxl_quality_lossless C img q w o :
  JxlEncode (width img) (height img) o ∈ made (Codec.encodeImage C img jxl q) w ->
  let config := Config.COMPRESSION_CONFIG jxl q in
  let resolved := JS.nullish (Config.value config) 80 in
  (Config.isLossless config = Some true -> quality o = 100)
  /\ (Config.isLossless config = Some false \/ Config.isLossless config = None ->
      quality o = resolved)
  /\ quality o = match q with lossless => 100 | high => 90 | balanced => 80 | low => 60 end
  /\ (forall isLossless numeric,
        quality (Codec.jxl_options img isLossless numeric)
        = if isLossless then 100 else numeric).
Proof.
  intros H config resolved.
  apply made_jxl_inv in H as (_ & _ & ->).
  subst config resolved. cbn [quality Codec.jxl_options].
  split; [|split; [|split]].
  - intros ->. reflexivity.
  - intros [-> | ->]; reflexivity.
  - destruct q; reflexivity.
  - reflexivity.
Qed.

Lemma jxl_quality_lossless_witness :
  let options := Codec.jxl_options (Sample.image 4 3) true 80 in
  JxlEncode 4 3 options
    ∈ made (Codec.encodeImage Sample.codecs (Sample.image 4 3) jxl lossless) fresh_worker
  /\ quality options = 100.
Proof.
  intros options.
  assert (H : JxlEncode 4 3 options
    ∈ made (Codec.encodeImage Sample.codecs (Sample.image 4 3) jxl lossless)
        fresh_worker).
  { rewrite made_jxl. apply list_elem_of_In. right. left. reflexivity. }
  split; [exact H|].
  destruct (jxl_quality_lossless Sample.codecs (Sample.image 4 3) lossless
              fresh_worker options H) as (Hl & _).
  apply Hl. reflexivity.
Defined.

(* ===================================================================== *)
(** ** The PNG branch *)
(* ===================================================================== *)

(** C2, as stated, fails: a PNG encode at level balanced, whose table
    row stands for optimize level 3, runs the optimizer at level 2. *)
Lemma png_level_counterexample :
  ¬ Claimed.png_level Sample.codecs (Sample.image 4 3) balanced fresh_worker.
Proof.
  unfold Claimed.png_level. rewrite made_png. intros H.
  apply (f_equal (fun l => match l with
                           | [_; OxipngOptimise options] => options !! "level"
                           | _ => None
                           end)) in H.
  vm_compute in H. discriminate.
Qed.

(** C2, amended. For every PNG encode at any quality level, the pixel
    buffer is encoded to PNG and the result is passed through the
    lossless size optimizer at the fixed level 2; the table rows of PNG
    all have [isLossless] true and carry the levels 2, 2, 3 and 4, so
    the level used is the level of the row exactly for lossless and
    high. *)
Theorem png_level_fixed C img q w encoded :
  png_encode C img = inr encoded ->
  made (Codec.encodeImage C img png q) w = [PngEncode; OxipngOptimise {[ "level" := 2 ]}]
  /\ (Codec.encodeImage C img png q w).2 = oxipng_optimise C encoded {[ "level" := 2 ]}
  /\ Config.value (Config.COMPRESSION_CONFIG png q) = Some (Spec.png_optimize_level q)
  /\ Config.isLossless (Config.COMPRESSION_CONFIG png q) = Some true
  /\ (q = lossless \/ q = high <-> Spec.png_optimize_level q = 2).
Proof.
  intros H. rewrite made_png, H.
  split; [reflexivity|]. split.
  { unfold Codec.encodeImage. run. rewrite H. reflexivity. }
  destruct q; cbn; intuition congruence.
Qed.

Lemma png_level_fixed_witness :
  png_encode Sample.codecs (Sample.image 4 3) = inr Sample.encoded
  /\ made (Codec.encodeImage Sample.codecs (Sample.image 4 3) png low) fresh_worker
     = [PngEncode; OxipngOptimise {[ "level" := 2 ]}].
Proof.
  split; [reflexivity|].
  apply (png_level_fixed Sample.codecs (Sample.image 4 3) low fresh_worker Sample.encoded).
  reflexivity.
Defined.

(* ===================================================================== *)
(** ** HEIC as the output format *)
(* ===================================================================== *)

(** The heic rows carry no value, so the quality resolves to the default
    80, which the clamp keeps. *)
Lemma heic_quality_nearest q :
  Spec.nearest [60; 80; 90]
    (JS.nullish (Config.value (Config.COMPRESSION_CONFIG heic q)) 80)
    (Codec.heic_quality (JS.nullish (Config.value (Config.COMPRESSION_CONFIG heic q)) 80)).
Proof.
  destruct q; cbn; (split; [set_solver|]); intros c Hc;
    repeat (apply elem_of_cons in Hc as [->|Hc]); try lia; inversion Hc.
Qed.

(** C1, on the code. When the output format of a compression is heic
    (asked for, or inherited from a HEIC input) and the compression
    returns a blob, the last codec call is a JPEG encode whose quality
    is the member of {60, 80, 90} nearest to the resolved numeric value;
    but the mime type of the blob is "image/heic", not "image/jpeg". *)
Theorem heic_target_output C file q format inputFormat w w' b :
  Engine.mimeToFormat (file_type file) = Some (Engine.Format inputFormat) ->
  JS.nullish format inputFormat = heic ->
  Compressor.compressFile C file q format w = (w', inr b) ->
  let resolved :=
    JS.nullish (Config.value (Config.COMPRESSION_CONFIG heic (JS.nullish q balanced))) 80 in
  (exists earlier r,
     calls w' = (earlier ++ [JpegEncode {[ "quality" := r ]}])%list
     /\ Spec.nearest [60; 80; 90] resolved r)
  /\ blob_type b = "image/heic"
  /\ blob_type b <> "image/jpeg".
Proof.
  intros Hin Hout Hrun resolved. subst resolved.
  rewrite (compressFile_known _ _ _ _ _ Hin), Hout in Hrun. revert Hrun. run.
  destruct (Codec.decodeImage C file w) as [w1 [e|img]]; [discriminate|].
  unfold Codec.encodeImage. run.
  destruct (jpeg_encode C img _) as [e|buffer]; [discriminate|].
  intros [= <- <-]. cbn [calls blob_type Engine.formatToMime Engine.FORMAT_TO_MIME].
  split; [|split; [reflexivity|discriminate]].
  eexists _, _. split; [reflexivity|]. apply heic_quality_nearest.
Qed.

Lemma heic_target_output_witness :
  exists b,
    (Compressor.compressFile Sample.codecs (Sample.file_of_type "image/heic")
       (Some balanced) None fresh_worker).2 = inr b
    /\ blob_type b = "image/heic".
Proof.
  eexists. split; [vm_compute; reflexivity|].
  eapply (heic_target_output Sample.codecs (Sample.file_of_type "image/heic")
            (Some balanced) None heic fresh_worker).
  - vm_compute. reflexivity.
  - reflexivity.
  - vm_compute. reflexivity.
Defined.

(* ===================================================================== *)
(** ** Input of an unknown mime type *)
(* ===================================================================== *)

(** C5, as stated, fails: for a GIF file, whose mime type is in no row
    of the table, the compression pipeline never reaches the canvas. *)
Lemma canvas_fallback_counterexample :
  ¬ Claimed.canvas_fallback Sample.codecs (Sample.file_of_type "image/gif")
      (Some balanced) None fresh_worker.
Proof.
  intros H. specialize (H ltac:(vm_compute; reflexivity)). vm_compute in H. inversion H.
Qed.

(** What [mimeToFormat] gives for a file [isSupportedFile] rejects. *)
Lemma mimeToFormat_rejected file :
  Compressor.isSupportedFile file = false ->
  Engine.mimeToFormat (file_type file) =
    if Spec.spelled "constructor" (file_type file)
      then Some (Engine.Inherited JS.Object_constructor)
    else if Spec.spelled "__proto__" (file_type file)
      then Some (Engine.Inherited JS.Object_prototype)
    else None.
Proof.
  intros Hn.
  assert (Hno : forall f, Engine.mimeToFormat (file_type file) <> Some (Engine.Format f)).
  { intros f Hf. rewrite (proj2 (supported_iff_format file)) in Hn by (exists f; exact Hf).
    discriminate. }
  revert Hno. rewrite mimeToFormat_spelled. intros Hno.
  repeat match goal with
         | H : context [if Spec.spelled ?k ?m then Some (Engine.Format ?f) else _] |- _ =>
             destruct (Spec.spelled k m); [exfalso; exact (H _ eq_refl)|]
         end.
  reflexivity.
Qed.

(** A decode that goes to the canvas. *)
Lemma decodeImage_canvas C file w :
  (forall f, Engine.mimeToFormat (file_type file) <> Some (Engine.Format f)) ->
  Codec.decodeImage C file w = codec CanvasDecode (canvas_decode C file) w.
Proof.
  intros Hno. unfold Codec.decodeImage, Codec.decodeWithCanvas.
  destruct (Engine.mimeToFormat (file_type file)) as [[f|v]|]; try reflexivity.
  destruct (Hno f eq_refl).
Qed.

(** C5, amended. For a file whose mime type matches no row of the table
    (a file [isSupportedFile] rejects), the canvas path is the fallback
    of [decodeImage], which makes that one call, and no other, when it
    is handed the file directly.  [compressFile] throws the
    unsupported-input error at once, with no codec call and the worker
    unchanged, unless the mime type is a spelling of "constructor" or
    "__proto__": for these two names the table lookup finds a member
    the object inherits, the guard passes and the canvas decodes; then,
    if the canvas returned an image, the compression fails in the
    encoder with the unsupported-encoding error when no target format is
    given, and goes on to encode to the target format when one is. *)
Theorem unsupported_input_rejected C file q format w :
  Compressor.isSupportedFile file = false ->
  let inherited_name :=
    Spec.spelled "constructor" (file_type file)
    || Spec.spelled "__proto__" (file_type file) in
  let job := Compressor.compressFile C file q format in
  made (Codec.decodeImage C file) w = [CanvasDecode]
  /\ (Codec.decodeImage C file w).2 = canvas_decode C file
  /\ (inherited_name = false ->
      job w = (w, inl (JS.ErrorObj ("不支持的输入格式: " +:+ file_type file)))
      /\ made job w = [])
  /\ (inherited_name = true ->
      match canvas_decode C file, format with
      | inl e, _ => (job w).2 = inl e /\ made job w = [CanvasDecode]
      | inr _, None =>
          (job w).2 =
            inl (JS.ErrorObj
                   ("不支持的编码格式: " +:+
                    (if Spec.spelled "constructor" (file_type file)
                     then native_code C "Object" else "[object Object]")))
          /\ made job w = [CanvasDecode]
      | inr img, Some f =>
          let encode := Codec.encodeImage C img f (JS.nullish q balanced) in
          let w1 := (Codec.decodeImage C file w).1 in
          (job w).2 =
            match (encode w1).2 with
            | inl e => inl e
            | inr buffer =>
                inr {| blob_bytes := buffer; blob_type := Engine.formatToMime f |}
            end
          /\ made job w = CanvasDecode :: made encode w1
      end).
Proof.
  intros Hn inherited_name job. subst inherited_name job.
  pose proof (mimeToFormat_rejected file Hn) as Hm.
  assert (Hno : forall f, Engine.mimeToFormat (file_type file) <> Some (Engine.Format f)).
  { intros f Hf. rewrite Hf in Hm.
    destruct (Spec.spelled "constructor" _); [discriminate|].
    destruct (Spec.spelled "__proto__" _); discriminate. }
  pose proof (decodeImage_canvas C file w Hno) as Hd.
  assert (Hc : made (Codec.decodeImage C file) w = [CanvasDecode]).
  { unfold made. rewrite Hd. run. apply (drop_calls _ [_]). }
  split; [exact Hc|]. split; [rewrite Hd; reflexivity|]. split.
  - intros Hi. apply orb_false_iff in Hi as [H1 H2]. rewrite H1, H2 in Hm.
    assert (Hj : Compressor.compressFile C file q format w
                 = (w, inl (JS.ErrorObj ("不支持的输入格式: " +:+ file_type file)))).
    { unfold Compressor.compressFile. rewrite Hm. reflexivity. }
    split; [exact Hj|]. unfold made. rewrite Hj. cbn [fst]. apply drop_all.
  - intros Hi.
    assert (Hv : exists v,
              Engine.mimeToFormat (file_type file) = Some (Engine.Inherited v)
              /\ JS.String_inherited (native_code C) v
                 = if Spec.spelled "constructor" (file_type file)
                   then native_code C "Object" else "[object Object]").
    { destruct (Spec.spelled "constructor" _); [eexists; split; [exact Hm|reflexivity]|].
      destruct (Spec.spelled "__proto__" _); [eexists; split; [exact Hm|reflexivity]|].
      discriminate. }
    destruct Hv as (v & Hv & Htext).
    rewrite (compressFile_made_inherited _ _ _ _ _ _ Hv), Hc.
    rewrite (compressFile_inherited _ _ _ _ _ Hv).
    unfold mbind at 1 3 5, M_bind. rewrite Hd. unfold codec at 1 2 3 4 5 6.
    destruct (canvas_decode C file) as [e|img].
    + split; reflexivity.
    + destruct format as [f|].
      * cbn zeta. split; [|reflexivity].
        unfold mbind, M_bind, mret, M_ret. cbn [fst].
        destruct (Codec.encodeImage C img f _ _) as [w2 [e|buffer]]; reflexivity.
      * split; [|reflexivity].
        unfold Codec.encodeImage_default, throw. cbn [snd]. rewrite Htext. reflexivity.
Qed.

Lemma unsupported_input_rejected_witness :
  Compressor.isSupportedFile (Sample.file_of_type "image/gif") = false
  /\ made (Codec.decodeImage Sample.codecs (Sample.file_of_type "image/gif")) fresh_worker
     = [CanvasDecode]
  /\ made (Compressor.compressFile Sample.codecs (Sample.file_of_type "image/gif")
             None None) fresh_worker = []
  /\ Compressor.isSupportedFile Fixture.odd_file = false
  /\ made (Compressor.compressFile Sample.codecs Fixture.odd_file None (Some jpeg))
        fresh_worker
     = [CanvasDecode; JpegEncode {[ "quality" := 80 ]}].
Proof.
  assert (H : Compressor.isSupportedFile (Sample.file_of_type "image/gif") = false)
    by (vm_compute; reflexivity).
  assert (H' : Compressor.isSupportedFile Fixture.odd_file = false)
    by (vm_compute; reflexivity).
  split; [exact H|].
  destruct (unsupported_input_rejected Sample.codecs (Sample.file_of_type "image/gif")
              None None fresh_worker H) as (H1 & _ & H2 & _).
  split; [exact H1|]. split; [apply H2; reflexivity|]. split; [exact H'|].
  destruct (unsupported_input_rejected Sample.codecs Fixture.odd_file
              None (Some jpeg) fresh_worker H') as (_ & _ & _ & H3).
  destruct (H3 eq_refl) as [_ H4]. rewrite H4. vm_compute. reflexivity.
Defined.

(* ===================================================================== *)
(** ** The worker's answer to a request *)
(* ===================================================================== *)

(** C6. For every request the worker receives, the handler returns
    having posted exactly one response; the response carries the id of
    the request, and it is a success response (success true, with the
    blob and the elapsed time, no error) when the compression returned
    a blob, and a failure response (success false, with an error
    message, no blob and no time) when it threw. *)
Theorem onmessage_one_response C e w :
  let w0 := (now C w).1 in
  let outcome :=
    Compressor.compressFile C (WorkerScript.req_file e) (WorkerScript.req_quality e)
      (WorkerScript.req_format e) w0 in
  exists r,
    WorkerScript.onmessage C e w = ((WorkerScript.onmessage C e w).1, inr tt)
    /\ posted (WorkerScript.onmessage C e w).1 = (posted w ++ [r])%list
    /\ Message.id r = WorkerScript.req_id e
    /\ match outcome.2 with
       | inr b =>
           Message.success r = true /\ Message.blob r = Some b
           /\ is_Some (Message.time r) /\ Message.error r = None
       | inl err =>
           Message.success r = false /\ Message.error r = Some (WorkerScript.translate err)
           /\ Message.blob r = None /\ Message.time r = None
       end.
Proof.
  intros w0 outcome. subst outcome w0.
  unfold WorkerScript.onmessage. run.
  pose proof (posted_compressFile C (WorkerScript.req_file e) (WorkerScript.req_quality e)
                (WorkerScript.req_format e) (now C w).1) as Hp.
  unfold now in Hp. cbn [fst] in Hp.
  destruct (Compressor.compressFile _ _ _ _ _) as [w1 [err|b]]; run; cbn [fst snd] in *.
  - eexists. split; [reflexivity|]. split; [rewrite Hp; reflexivity|].
    cbn. auto.
  - eexists. split; [reflexivity|]. split; [rewrite Hp; reflexivity|].
    cbn. split; [reflexivity|]. split; [reflexivity|]. split; [reflexivity|].
    split; [eexists; reflexivity|reflexivity].
Qed.

(* ===================================================================== *)
(** ** A fatal worker error *)
(* ===================================================================== *)

(** C7. When the orchestrator receives a fatal worker error, every file
    whose status is compressing at that moment gets status error and
    the engine-crashed message, its other fields as they were, and
    every file in another status (pending, done, error) is unchanged;
    the list keeps its length and order. *)
Theorem onerror_marks_compressing st i f :
  Hook.files st !! i = Some f ->
  length (Hook.files (Hook.onerror st)) = length (Hook.files st)
  /\ (Hook.status f = Hook.compressing ->
      exists f',
        Hook.files (Hook.onerror st) !! i = Some f'
        /\ Hook.status f' = Hook.error
        /\ Hook.error_message f' = Some Hook.engine_crashed
        /\ Hook.id f' = Hook.id f /\ Hook.file f' = Hook.file f
        /\ Hook.name f' = Hook.name f /\ Hook.originalSize f' = Hook.originalSize f
        /\ Hook.compressedSize f' = Hook.compressedSize f
        /\ Hook.ratio f' = Hook.ratio f /\ Hook.time f' = Hook.time f
        /\ Hook.originalUrl f' = Hook.originalUrl f
        /\ Hook.compressedUrl f' = Hook.compressedUrl f
        /\ Hook.compressedBlob f' = Hook.compressedBlob f
        /\ Hook.outputFormat f' = Hook.outputFormat f
        /\ Hook.appliedSettings f' = Hook.appliedSettings f)
  /\ (Hook.status f <> Hook.compressing ->
      Hook.files (Hook.onerror st) !! i = Some f).
Proof.
  intros Hi. cbn [Hook.onerror Hook.files]. unfold Hook.crash_files.
  split; [apply length_fmap|].
  rewrite list_lookup_fmap, Hi. cbn [fmap option_fmap option_map].
  split; intros Hs.
  - rewrite decide_True by exact Hs.
    eexists. split; [reflexivity|]. cbn. repeat split.
  - rewrite decide_False by exact Hs. reflexivity.
Qed.

Lemma onerror_marks_compressing_witness :
  Hook.files Sample.state !! 2%nat = Some (Sample.entry "c" Hook.done)
  /\ Hook.files (Hook.onerror Sample.state) !! 2%nat = Some (Sample.entry "c" Hook.done)
  /\ Hook.status <$> Hook.files (Hook.onerror Sample.state)
     = [Hook.pending; Hook.error; Hook.done; Hook.error].
Proof.
  split; [reflexivity|]. split; [|reflexivity].
  apply (onerror_marks_compressing Sample.state 2 (Sample.entry "c" Hook.done)).
  - reflexivity.
  - discriminate.
Defined.

(* ===================================================================== *)
(** ** Binary64 arithmetic and the compression ratio *)
(* ===================================================================== *)

(** Rounding a non-negative mantissa never produces NaN and keeps the
    sign it is given. *)
Section Rounding.
Variables prec emax : Z.

Lemma shr_1_nonneg mrs : 0 <= shr_m mrs -> 0 <= shr_m (shr_1 mrs).
Proof.
  destruct mrs as [m r s]; cbn [shr_m]. intros H.
  destruct m as [|[p|p|]|p]; cbn; lia.
Qed.

Lemma iter_shr_1_nonneg p : forall mrs,
  0 <= shr_m mrs -> 0 <= shr_m (SpecFloat.iter_pos shr_1 p mrs).
Proof.
  induction p as [p IH|p IH|]; intros mrs H; cbn [SpecFloat.iter_pos].
  - apply IH, IH, shr_1_nonneg, H.
  - apply IH, IH, H.
  - apply shr_1_nonneg, H.
Qed.

Lemma shr_fexp_nonneg m e l :
  0 <= m -> 0 <= shr_m (fst (shr_fexp prec emax m e l)).
Proof.
  intros H. unfold shr_fexp, shr.
  assert (H0 : 0 <= shr_m (shr_record_of_loc m l)).
  { destruct l as [|[]]; cbn; exact H. }
  destruct (fexp prec emax (Zdigits2 m + e) - e); cbn [fst]; try exact H0.
  apply iter_shr_1_nonneg, H0.
Qed.

Lemma round_nearest_even_nonneg m l : 0 <= m -> 0 <= round_nearest_even m l.
Proof.
  intros H. unfold round_nearest_even.
  destruct l as [|[]]; try destruct (Z.even m); lia.
Qed.

Lemma binary_round_aux_signed s m e l :
  0 <= m -> JS.signed s (binary_round_aux prec emax s m e l).
Proof.
  intros H. unfold binary_round_aux.
  pose proof (shr_fexp_nonneg m e l H) as H1.
  destruct (shr_fexp prec emax m e l) as [mrs' e']. cbn [fst] in H1.
  pose proof (shr_fexp_nonneg _ e' loc_Exact
                (round_nearest_even_nonneg _ (loc_of_shr_record mrs') H1)) as H2.
  destruct (shr_fexp prec emax _ e' loc_Exact) as [mrs'' e'']. cbn [fst] in H2.
  destruct (shr_m mrs''); [reflexivity | | lia].
  destruct (e'' <=? emax - prec); reflexivity.
Qed.

Lemma binary_round_signed s m e : JS.signed s (binary_round prec emax s m e).
Proof.
  unfold binary_round.
  destruct (shl_align m e _) as [mz ez].
  apply binary_round_aux_signed. lia.
Qed.
End Rounding.

(** Integers below 2^53 are numbers: the conversion only shifts the
    mantissa to 53 bits. *)
Lemma digits2_size p : digits2_pos p = Pos.size p.
Proof. induction p as [p IH|p IH|]; cbn; congruence. Qed.

Lemma iter_xO_value k : forall p, Z.pos (Pos.iter xO p k) = Z.pos p * 2 ^ Z.pos k.
Proof.
  induction k as [|k IH] using Pos.peano_ind; intros p.
  - cbn [Pos.iter]. lia.
  - rewrite Pos.iter_succ, Pos2Z.inj_succ, Z.pow_succ_r by lia.
    rewrite Pos2Z.inj_xO, IH. lia.
Qed.

Lemma iter_xO_digits k : forall p,
  digits2_pos (Pos.iter xO p k) = (digits2_pos p + k)%positive.
Proof.
  induction k as [|k IH] using Pos.peano_ind; intros p.
  - cbn [Pos.iter digits2_pos]. lia.
  - rewrite Pos.iter_succ. cbn [digits2_pos]. rewrite IH. lia.
Qed.

Lemma digits2_bound p : Z.pos p < 2 ^ 53 -> Z.pos (digits2_pos p) <= 53.
Proof.
  intros H. rewrite digits2_size.
  pose proof (Pos.size_le p) as Hle.
  apply Pos2Z.pos_le_pos in Hle. rewrite Pos2Z.inj_pow in Hle.
  change (Z.pos 2) with 2 in Hle. change (Z.pos p~0) with (2 * Z.pos p) in Hle.
  destruct (Z_le_gt_dec (Z.pos (Pos.size p)) 53) as [|Hgt]; [assumption|].
  exfalso.
  assert (2 ^ 54 <= 2 ^ Z.pos (Pos.size p)) by (apply Z.pow_le_mono_r; lia).
  assert (2 ^ 54 = 2 * 2 ^ 53) by reflexivity.
  lia.
Qed.

Lemma binary_round_aux_exact s m e :
  Z.pos (digits2_pos m) = 53 -> -1074 <= e <= 971 ->
  binary_round_aux JS.prec JS.emax s (Z.pos m) e loc_Exact = S754_finite s m e.
Proof.
  intros Hd He.
  assert (Hshift : forall m', Z.pos (digits2_pos m) = 53 ->
            Zdigits2 m' = Z.pos (digits2_pos m) ->
            fexp JS.prec JS.emax (Zdigits2 m' + e) - e = 0).
  { intros m' _ ->. rewrite Hd. unfold fexp, emin, JS.prec, JS.emax. lia. }
  unfold binary_round_aux, shr_fexp.
  rewrite (Hshift (Z.pos m) Hd eq_refl). cbn [shr shr_record_of_loc shr_m loc_of_shr_record round_nearest_even].
  rewrite (Hshift (Z.pos m) Hd eq_refl). cbn [shr shr_record_of_loc shr_m].
  replace (e <=? JS.emax - JS.prec) with true; [reflexivity|].
  symmetry. apply Z.leb_le. unfold JS.emax, JS.prec. lia.
Qed.

Lemma binary_round_exact s p :
  Z.pos p < 2 ^ 53 ->
  exists m e, binary_round JS.prec JS.emax s p 0 = S754_finite s m e
              /\ e <= 0 /\ Z.pos m = Z.pos p * 2 ^ (- e).
Proof.
  intros Hp. pose proof (digits2_bound p Hp) as Hd.
  unfold binary_round, shl_align.
  replace (fexp JS.prec JS.emax (Z.pos (digits2_pos p) + 0) - 0)
    with (Z.pos (digits2_pos p) - 53)
    by (unfold fexp, emin, JS.prec, JS.emax; lia).
  replace (fexp JS.prec JS.emax (Z.pos (digits2_pos p) + 0))
    with (Z.pos (digits2_pos p) - 53)
    by (unfold fexp, emin, JS.prec, JS.emax; lia).
  destruct (Z.pos (digits2_pos p) - 53) as [|k|k] eqn:Hk; [| lia |].
  - exists p, 0. split; [|split; [lia|cbn; lia]].
    apply binary_round_aux_exact; lia.
  - exists (Pos.iter xO p k), (Z.neg k). split; [|split; [lia|]].
    + apply binary_round_aux_exact; [|lia].
      rewrite iter_xO_digits. lia.
    + rewrite iter_xO_value. reflexivity.
Qed.

Lemma of_Z_pos z :
  0 < z < 2 ^ 53 ->
  exists m e, JS.of_Z z = S754_finite false m e /\ e <= 0 /\ Z.pos m = z * 2 ^ (- e).
Proof.
  intros [H0 H1]. destruct z as [|p|p]; try lia.
  unfold JS.of_Z, binary_normalize. apply binary_round_exact, H1.
Qed.

(** The operations of the ratio keep the sign of their left operand
    when the right one is a positive finite number. *)
Lemma of_Z_signed z :
  (0 < z -> JS.signed false (JS.of_Z z)) /\ (z < 0 -> JS.signed true (JS.of_Z z)).
Proof.
  unfold JS.of_Z, binary_normalize.
  destruct z; split; intros H; try lia; apply binary_round_signed.
Qed.

Lemma div_signed s x my ey :
  JS.signed s x -> JS.signed s (JS.div x (S754_finite false my ey)).
Proof.
  unfold JS.div. destruct x as [sx|sx| |sx mx ex]; cbn [JS.signed SFdiv]; intros H;
    try (rewrite xorb_false_r; exact H); try contradiction.
  rewrite xorb_false_r, H.
  unfold SFdiv_core_binary.
  set (sh := ex - ey - _).
  set (m' := match sh with Z0 => Z.pos mx | Z.pos _ => Z.shiftl (Z.pos mx) sh | Z.neg _ => 0 end).
  assert (Hm : 0 <= m').
  { subst m'. destruct sh; try lia. apply Z.shiftl_nonneg. lia. }
  pose proof (Z_div_mod m' (Z.pos my) ltac:(lia)) as Hdiv.
  destruct (Z.div_eucl m' (Z.pos my)) as [q r].
  apply binary_round_aux_signed. nia.
Qed.

Lemma mul_signed s x my ey :
  JS.signed s x -> JS.signed s (JS.mul x (S754_finite false my ey)).
Proof.
  unfold JS.mul. destruct x as [sx|sx| |sx mx ex]; cbn [JS.signed SFmul]; intros H;
    try (rewrite xorb_false_r; exact H); try contradiction.
  rewrite xorb_false_r, H. apply binary_round_aux_signed. lia.
Qed.

Lemma Math_round_signed s x : JS.signed s x -> JS.signed s (JS.Math_round x).
Proof.
  destruct x as [sx|sx| |sx m e]; cbn [JS.signed JS.Math_round]; intros H; try exact H.
  destruct (0 <=? e)%Z eqn:He; [exact H|]. apply Z.leb_gt in He.
  set (n := (2 * cond_Zopp sx (Z.pos m) + 2 ^ (- e)) / 2 ^ (1 - e)).
  assert (Hp : 0 < 2 ^ (- e)) by (apply Z.pow_pos_nonneg; lia).
  assert (Hq : 2 ^ (1 - e) = 2 * 2 ^ (- e)).
  { replace (1 - e) with (Z.succ (- e)) by lia. apply Z.pow_succ_r. lia. }
  destruct (n =? 0)%Z eqn:Hn; [exact H|]. apply Z.eqb_neq in Hn.
  subst s. destruct sx; cbn [cond_Zopp] in n.
  - assert (n < 1).
    { subst n. apply Z.div_lt_upper_bound; lia. }
    apply of_Z_signed. lia.
  - assert (0 <= n).
    { subst n. apply Z.div_pos; lia. }
    apply of_Z_signed. lia.
Qed.

(** The difference of two byte counts has the sign of their integer
    difference. *)
Lemma shl_align_value m e e' :
  e' <= e -> Z.pos (fst (shl_align m e e')) = Z.pos m * 2 ^ (e - e').
Proof.
  intros H. unfold shl_align.
  destruct (e' - e) as [|k|k] eqn:Hk; cbn [fst]; try lia.
  - replace (e - e') with 0 by lia. lia.
  - rewrite iter_xO_value. f_equal. f_equal. lia.
Qed.

Lemma sub_of_Z o c :
  0 <= o < 2 ^ 53 -> 0 <= c < 2 ^ 53 ->
  (c < o -> JS.signed false (JS.sub (JS.of_Z o) (JS.of_Z c)))
  /\ (o < c -> JS.signed true (JS.sub (JS.of_Z o) (JS.of_Z c)))
  /\ (o = c -> JS.sub (JS.of_Z o) (JS.of_Z c) = S754_zero false).
Proof.
  intros Ho Hc.
  destruct (Z.eq_dec o 0) as [->|Ho0]; destruct (Z.eq_dec c 0) as [->|Hc0].
  - split; [|split]; intros; try lia; reflexivity.
  - destruct (of_Z_pos c ltac:(lia)) as (mc & ec & -> & _ & _).
    split; [|split]; intros; try lia; reflexivity.
  - destruct (of_Z_pos o ltac:(lia)) as (mo & eo & -> & _ & _).
    split; [|split]; intros; try lia; reflexivity.
  - destruct (of_Z_pos o ltac:(lia)) as (mo & eo & -> & Heo & Hmo).
    destruct (of_Z_pos c ltac:(lia)) as (mc & ec & -> & Hec & Hmc).
    unfold JS.sub. cbn [SFsub cond_Zopp].
    set (ez := Z.min eo ec).
    rewrite !shl_align_value by lia.
    rewrite Hmo, Hmc.
    assert (Hpow : forall z e, e <= 0 -> ez <= e ->
              z * 2 ^ (- e) * 2 ^ (e - ez) = z * 2 ^ (- ez)).
    { intros z e H1 H2. rewrite <- Z.mul_assoc, <- Z.pow_add_r by lia.
      f_equal. f_equal. lia. }
    rewrite !Hpow by lia.
    assert (Hp : 0 < 2 ^ (- ez)) by (apply Z.pow_pos_nonneg; lia).
    unfold binary_normalize.
    destruct (o * 2 ^ (- ez) - c * 2 ^ (- ez)) as [|d|d] eqn:Hd;
      (split; [|split]); intros; try nia; try reflexivity; apply binary_round_signed.
Qed.

Lemma of_Z_100 : exists m e, JS.of_Z 100 = S754_finite false m e.
Proof. eexists _, _. vm_compute. reflexivity. Qed.

(** Comparisons with zero, from the sign. *)
Lemma signed_not_nan s x : JS.signed s x -> JS.isNaN x = false.
Proof. destruct x; cbn; intros H; try reflexivity; contradiction. Qed.

Lemma signed_false_gt x :
  JS.signed false x ->
  JS.gt x (JS.of_Z 0) = negb (JS.strict_eq x (JS.of_Z 0))
  /\ JS.lt x (JS.of_Z 0) = false.
Proof. destruct x as [[]|[]| |[] m e]; cbn; intros H; try discriminate; try contradiction; split; reflexivity. Qed.

Lemma signed_true_lt x :
  JS.signed true x ->
  JS.lt x (JS.of_Z 0) = negb (JS.strict_eq x (JS.of_Z 0))
  /\ JS.gt x (JS.of_Z 0) = false.
Proof. destruct x as [[]|[]| |[] m e]; cbn; intros H; try discriminate; try contradiction; split; reflexivity. Qed.

(** The ratio of a non-empty original: the rounded expression, with
    the sign of [o - c]. *)
Lemma ratio_signed o c :
  0 < o < 2 ^ 53 -> 0 <= c < 2 ^ 53 ->
  let r := FileIO.compressionRatio (JS.of_Z o) (JS.of_Z c) in
  r = JS.Math_round (JS.mul (JS.div (JS.sub (JS.of_Z o) (JS.of_Z c)) (JS.of_Z o)) (JS.of_Z 100))
  /\ (c < o -> JS.signed false r)
  /\ (o < c -> JS.signed true r)
  /\ (o = c -> r = S754_zero false).
Proof.
  intros Ho Hc r.
  destruct (sub_of_Z o c ltac:(lia) Hc) as (Hlt & Hgt & Heq).
  destruct (of_Z_pos o Ho) as (mo & eo & Eo & _ & _).
  destruct of_Z_100 as (mh & eh & Eh).
  assert (Hr : r = JS.Math_round (JS.mul (JS.div (JS.sub (JS.of_Z o) (JS.of_Z c)) (JS.of_Z o)) (JS.of_Z 100))).
  { subst r. unfold FileIO.compressionRatio. rewrite Eo at 1. reflexivity. }
  split; [exact Hr|]. rewrite Hr. rewrite Eh. rewrite Eo at 2 4 6.
  split; [|split]; intros H.
  - apply Math_round_signed, mul_signed, div_signed, Hlt, H.
  - apply Math_round_signed, mul_signed, div_signed, Hgt, H.
  - rewrite (Heq H). reflexivity.
Qed.

(** Digits and powers of two. *)
Lemma pos_lt_pow_digits p : Z.pos p < 2 ^ Z.pos (digits2_pos p).
Proof.
  rewrite digits2_size. pose proof (Pos.size_gt p) as H.
  apply Pos2Z.pos_lt_pos in H. rewrite Pos2Z.inj_pow in H. exact H.
Qed.

Lemma pos_digits_le p a : 0 <= a -> Z.pos p < 2 ^ a -> Z.pos (digits2_pos p) <= a.
Proof.
  intros Ha H. rewrite digits2_size.
  pose proof (Pos.size_le p) as Hle.
  apply Pos2Z.pos_le_pos in Hle. rewrite Pos2Z.inj_pow in Hle.
  change (Z.pos 2) with 2 in Hle. change (Z.pos p~0) with (2 * Z.pos p) in Hle.
  destruct (Z_le_gt_dec (Z.pos (Pos.size p)) a) as [|Hgt]; [assumption|].
  exfalso.
  assert (2 ^ (a + 1) <= 2 ^ Z.pos (Pos.size p)) by (apply Z.pow_le_mono_r; lia).
  rewrite Z.pow_add_r in * by lia. lia.
Qed.

Lemma Zdigits2_lt m : 0 <= m -> m < 2 ^ Zdigits2 m.
Proof.
  destruct m as [|p|p]; intros H; try lia; [reflexivity|apply pos_lt_pow_digits].
Qed.

Lemma Zdigits2_le m a : 0 <= a -> 0 <= m < 2 ^ a -> Zdigits2 m <= a.
Proof.
  destruct m as [|p|p]; intros Ha H; try lia; cbn [Zdigits2]; [lia|].
  apply pos_digits_le; lia.
Qed.

Lemma Zdigits2_nonneg m : 0 <= Zdigits2 m.
Proof. destruct m; cbn; lia. Qed.

(** Shifting right divides. *)
Lemma shr_1_div mrs : 0 <= shr_m mrs -> shr_m (shr_1 mrs) = shr_m mrs / 2.
Proof.
  destruct mrs as [m r s]; cbn [shr_m]. intros H.
  destruct m as [|[p|p|]|p]; cbn [shr_1 shr_m]; try lia.
  - reflexivity.
  - change (Z.pos p~1) with (2 * Z.pos p + 1).
    apply Z.div_unique with 1; lia.
  - change (Z.pos p~0) with (2 * Z.pos p).
    apply Z.div_unique with 0; lia.
  - reflexivity.
Qed.

Lemma iter_shr_1_div p : forall mrs,
  0 <= shr_m mrs ->
  shr_m (SpecFloat.iter_pos shr_1 p mrs) = shr_m mrs / 2 ^ Z.pos p.
Proof.
  induction p as [p IH|p IH|]; intros mrs H; cbn [SpecFloat.iter_pos].
  - rewrite IH by (apply iter_shr_1_nonneg, shr_1_nonneg, H).
    rewrite IH by (apply shr_1_nonneg, H). rewrite shr_1_div by exact H.
    rewrite !Z.div_div by lia. f_equal.
    replace (Z.pos p~1) with (Z.pos p + Z.pos p + 1) by lia.
    rewrite !Z.pow_add_r by lia. change (2 ^ 1) with 2. ring.
  - rewrite IH by (apply iter_shr_1_nonneg, H). rewrite IH by exact H.
    rewrite !Z.div_div by lia. f_equal.
    replace (Z.pos p~0) with (Z.pos p + Z.pos p) by lia.
    rewrite !Z.pow_add_r by lia. ring.
  - apply shr_1_div, H.
Qed.

(** [shr_fexp]: the mantissa is divided by [2 ^ n] and the exponent
    raised by [n], where [n] is what the format asks for, if positive. *)
Lemma shr_fexp_value m e l :
  0 <= m ->
  let n := Z.max 0 (Z.max (Zdigits2 m + e - 53) (-1074) - e) in
  shr_m (fst (shr_fexp JS.prec JS.emax m e l)) = m / 2 ^ n
  /\ snd (shr_fexp JS.prec JS.emax m e l) = e + n.
Proof.
  intros H n. subst n.
  change (Z.max (Zdigits2 m + e - 53) (-1074))
    with (fexp JS.prec JS.emax (Zdigits2 m + e)).
  unfold shr_fexp, shr.
  assert (H0 : shr_m (shr_record_of_loc m l) = m) by (destruct l as [|[]]; reflexivity).
  destruct (fexp JS.prec JS.emax (Zdigits2 m + e) - e) as [|p|p]; cbn [fst snd].
  - rewrite H0, Z.div_1_r. split; [reflexivity|lia].
  - rewrite iter_shr_1_div by (rewrite H0; exact H). rewrite H0.
    rewrite Z.max_r by lia. split; reflexivity.
  - rewrite H0, Z.max_l by lia. rewrite Z.div_1_r. split; [reflexivity|lia].
Qed.

Lemma div_pow_lt m d n : 0 <= m < 2 ^ d -> 0 <= d -> 0 <= n -> m / 2 ^ n < 2 ^ Z.max 0 (d - n).
Proof.
  intros Hm Hd Hn.
  assert (Hp : 0 < 2 ^ n) by (apply Z.pow_pos_nonneg; lia).
  apply Z.div_lt_upper_bound; [exact Hp|].
  destruct (Z_le_gt_dec n d) as [Hle|Hgt].
  - rewrite Z.max_r by lia. rewrite <- Z.pow_add_r by lia.
    replace (n + (d - n)) with d by lia. lia.
  - rewrite Z.max_l by lia. change (2 ^ 0) with 1.
    assert (2 ^ d <= 2 ^ n) by (apply Z.pow_le_mono_r; lia). lia.
Qed.

Lemma round_nearest_even_le m l : round_nearest_even m l <= m + 1.
Proof. unfold round_nearest_even. destruct l as [|[]]; try destruct (Z.even m); lia. Qed.

Lemma binary_round_aux_shaped s m e l a :
  0 <= m < 2 ^ a -> 0 <= a -> e <= 900 -> a + e <= 900 ->
  shaped s (Z.max e (Z.max (a + e - 52) (-1074)))
    (binary_round_aux JS.prec JS.emax s m e l).
Proof.
  intros Hm Ha He Hae. unfold binary_round_aux.
  destruct (shr_fexp_value m e l ltac:(lia)) as [V1 E1].
  destruct (shr_fexp JS.prec JS.emax m e l) as [mrs1 e1]. cbn [fst snd] in V1, E1.
  set (n1 := Z.max 0 (Z.max (Zdigits2 m + e - 53) (-1074) - e)) in *.
  set (m1 := round_nearest_even (shr_m mrs1) (loc_of_shr_record mrs1)).
  assert (Hd : Zdigits2 m <= a) by (apply Zdigits2_le; lia).
  pose proof (Zdigits2_nonneg m) as Hd0.
  assert (Hn1 : 0 <= n1) by (subst n1; lia).
  assert (Hs1 : 0 <= shr_m mrs1 < 2 ^ Z.max 0 (a - n1)).
  { rewrite V1. split; [apply Z.div_pos; [lia|apply Z.pow_pos_nonneg; lia]|].
    apply div_pow_lt; lia. }
  assert (Hm1 : 0 <= m1 < 2 ^ (Z.max 0 (a - n1) + 1)).
  { subst m1. split; [apply round_nearest_even_nonneg; lia|].
    pose proof (round_nearest_even_le (shr_m mrs1) (loc_of_shr_record mrs1)).
    rewrite Z.pow_add_r by lia. change (2 ^ 1) with 2. lia. }
  destruct (shr_fexp_value m1 e1 loc_Exact ltac:(lia)) as [V2 E2].
  destruct (shr_fexp JS.prec JS.emax m1 e1 loc_Exact) as [mrs2 e2]. cbn [fst snd] in V2, E2.
  set (n2 := Z.max 0 (Z.max (Zdigits2 m1 + e1 - 53) (-1074) - e1)) in *.
  assert (Hd1 : Zdigits2 m1 <= Z.max 0 (a - n1) + 1) by (apply Zdigits2_le; lia).
  pose proof (Zdigits2_nonneg m1) as Hd10.
  assert (Hn2 : 0 <= n2) by (subst n2; lia).
  assert (Hs2 : 0 <= shr_m mrs2 < 2 ^ 53).
  { rewrite V2. split; [apply Z.div_pos; [lia|apply Z.pow_pos_nonneg; lia]|].
    pose proof (div_pow_lt m1 (Zdigits2 m1) n2
                  ltac:(split; [lia|apply Zdigits2_lt; lia]) Hd10 Hn2) as Hlt.
    assert (2 ^ Z.max 0 (Zdigits2 m1 - n2) <= 2 ^ 53)
      by (apply Z.pow_le_mono_r; subst n2; lia).
    lia. }
  assert (Htop : e2 <= Z.max e (Z.max (a + e - 52) (-1074))) by (subst n1 n2; lia).
  destruct (shr_m mrs2) as [|p|p]; cbn [shaped]; [reflexivity| |lia].
  replace (e2 <=? JS.emax - JS.prec) with true
    by (symmetry; apply Z.leb_le; unfold JS.emax, JS.prec; lia).
  cbn [shaped]. split; [reflexivity|]. split; [lia|exact Htop].
Qed.

Lemma shaped_le s top top' x : top <= top' -> shaped s top x -> shaped s top' x.
Proof. destruct x; cbn; intros; intuition lia. Qed.

Lemma binary_round_shaped s p e :
  e <= 900 -> Z.pos (digits2_pos p) + e <= 900 ->
  shaped s (Z.max e (Z.max (Z.pos (digits2_pos p) + e - 52) (-1074)))
    (binary_round JS.prec JS.emax s p e).
Proof.
  intros He Hd. unfold binary_round, shl_align.
  change (fexp JS.prec JS.emax (Z.pos (digits2_pos p) + e))
    with (Z.max (Z.pos (digits2_pos p) + e - 53) (-1074)).
  set (d := Z.pos (digits2_pos p)) in *.
  destruct (Z.max (d + e - 53) (-1074) - e) as [|k|k] eqn:Hk.
  - eapply shaped_le; [|apply (binary_round_aux_shaped s (Z.pos p) e loc_Exact d)];
      try lia. split; [lia|apply pos_lt_pow_digits].
  - eapply shaped_le; [|apply (binary_round_aux_shaped s (Z.pos p) e loc_Exact d)];
      try lia. split; [lia|apply pos_lt_pow_digits].
  - eapply shaped_le;
      [|apply (binary_round_aux_shaped s (Z.pos (Pos.iter xO p k)) _ loc_Exact
                 (d + Z.pos k))]; try lia.
    split; [lia|]. pose proof (pos_lt_pow_digits (Pos.iter xO p k)) as H.
    rewrite iter_xO_digits in H. rewrite Pos2Z.inj_add in H. exact H.
Qed.

Lemma binary_normalize_shaped z e :
  -52 <= e <= 0 -> Z.abs z < 2 ^ 105 ->
  exists s, shaped s 53 (binary_normalize JS.prec JS.emax z e false).
Proof.
  intros He Hz.
  assert (Hp : forall s p, Z.pos p < 2 ^ 105 ->
            shaped s 53 (binary_round JS.prec JS.emax s p e)).
  { intros s p Hlt.
    pose proof (pos_digits_le p 105 ltac:(lia) Hlt) as Hd.
    eapply shaped_le; [|apply binary_round_shaped]; lia. }
  destruct z as [|p|p]; cbn [binary_normalize].
  - exists false. reflexivity.
  - exists false. apply Hp. lia.
  - exists true. apply Hp. lia.
Qed.

Lemma binary_round_exact_shape s p :
  Z.pos p < 2 ^ 53 ->
  exists m e, binary_round JS.prec JS.emax s p 0 = S754_finite s m e
              /\ -52 <= e <= 0 /\ Z.pos m = Z.pos p * 2 ^ (- e) /\ Z.pos m < 2 ^ 53.
Proof.
  intros Hp. pose proof (digits2_bound p Hp) as Hd.
  unfold binary_round, shl_align.
  replace (fexp JS.prec JS.emax (Z.pos (digits2_pos p) + 0) - 0)
    with (Z.pos (digits2_pos p) - 53)
    by (unfold fexp, emin, JS.prec, JS.emax; lia).
  replace (fexp JS.prec JS.emax (Z.pos (digits2_pos p) + 0))
    with (Z.pos (digits2_pos p) - 53)
    by (unfold fexp, emin, JS.prec, JS.emax; lia).
  destruct (Z.pos (digits2_pos p) - 53) as [|k|k] eqn:Hk; [| lia |].
  - exists p, 0. split; [|split; [lia|split; [cbn; lia|exact Hp]]].
    apply binary_round_aux_exact; lia.
  - exists (Pos.iter xO p k), (Z.neg k). split; [|split; [lia|split]].
    + apply binary_round_aux_exact; [|lia].
      rewrite iter_xO_digits. lia.
    + rewrite iter_xO_value. reflexivity.
    + pose proof (pos_lt_pow_digits (Pos.iter xO p k)) as H.
      rewrite iter_xO_digits, Pos2Z.inj_add in H.
      replace (Z.pos (digits2_pos p) + Z.pos k) with 53 in H by lia. exact H.
Qed.

Lemma of_Z_shape z :
  0 < z < 2 ^ 53 ->
  exists m e, JS.of_Z z = S754_finite false m e
              /\ -52 <= e <= 0 /\ Z.pos m = z * 2 ^ (- e) /\ Z.pos m < 2 ^ 53.
Proof.
  intros [H0 H1]. destruct z as [|p|p]; try lia.
  unfold JS.of_Z, binary_normalize. apply binary_round_exact_shape, H1.
Qed.

(** The numbers of the ratio are zeros or finite. *)
Lemma sub_shaped o c :
  0 <= o < 2 ^ 53 -> 0 <= c < 2 ^ 53 ->
  exists s, shaped s 53 (JS.sub (JS.of_Z o) (JS.of_Z c)).
Proof.
  intros Ho Hc.
  destruct (Z.eq_dec o 0) as [->|Ho0]; destruct (Z.eq_dec c 0) as [->|Hc0].
  - exists false. reflexivity.
  - destruct (of_Z_shape c ltac:(lia)) as (mc & ec & -> & He & _ & Hm).
    exists true. cbn. split; [reflexivity|]. split; [exact Hm|lia].
  - destruct (of_Z_shape o ltac:(lia)) as (mo & eo & -> & He & _ & Hm).
    exists false. cbn. split; [reflexivity|]. split; [exact Hm|lia].
  - destruct (of_Z_shape o ltac:(lia)) as (mo & eo & -> & Heo & Hmo & Hbo).
    destruct (of_Z_shape c ltac:(lia)) as (mc & ec & -> & Hec & Hmc & Hbc).
    unfold JS.sub. cbn [SFsub cond_Zopp].
    apply binary_normalize_shaped; [lia|].
    rewrite !shl_align_value by lia.
    assert (Hs : forall m e, Z.pos m < 2 ^ 53 -> -52 <= e <= 0 -> Z.min eo ec <= e ->
              0 < Z.pos m * 2 ^ (e - Z.min eo ec) < 2 ^ 105).
    { intros m e Hm He Hmin.
      assert (0 < 2 ^ (e - Z.min eo ec) <= 2 ^ 52).
      { split; [apply Z.pow_pos_nonneg; lia|apply Z.pow_le_mono_r; lia]. }
      change (2 ^ 105) with (2 ^ 53 * 2 ^ 52).
      split; [apply Z.mul_pos_pos; lia|].
      apply Z.le_lt_trans with (Z.pos m * 2 ^ 52).
      - apply Z.mul_le_mono_nonneg_l; lia.
      - apply Z.mul_lt_mono_pos_r; [reflexivity|exact Hm]. }
    pose proof (Hs mo eo Hbo Heo ltac:(lia)). pose proof (Hs mc ec Hbc Hec ltac:(lia)). lia.
Qed.

Lemma div_shaped s x my ey :
  shaped s 53 x -> Z.pos my < 2 ^ 53 -> -52 <= ey <= 0 ->
  shaped s 106 (JS.div x (S754_finite false my ey)).
Proof.
  unfold JS.div. destruct x as [sx|sx| |sx mx ex]; cbn [shaped SFdiv]; intros H Hy He;
    try contradiction; [rewrite xorb_false_r; exact H|].
  destruct H as (-> & Hx & Hex). rewrite xorb_false_r.
  unfold SFdiv_core_binary.
  change (fexp JS.prec JS.emax (Zdigits2 (Z.pos mx) + ex - (Zdigits2 (Z.pos my) + ey)))
    with (Z.max (Zdigits2 (Z.pos mx) + ex - (Zdigits2 (Z.pos my) + ey) - 53) (-1074)).
  set (e' := Z.min _ (ex - ey)).
  set (sh := ex - ey - e').
  assert (Hsh : 0 <= sh) by (subst sh e'; lia).
  set (m' := match sh with Z0 => Z.pos mx | Z.pos _ => Z.shiftl (Z.pos mx) sh | Z.neg _ => 0 end).
  assert (Hm : 0 <= m' < 2 ^ (53 + sh)).
  { assert (Hp : 0 < 2 ^ sh) by (apply Z.pow_pos_nonneg; lia).
    assert (E : m' = Z.pos mx * 2 ^ sh).
    { subst m'. destruct sh as [|k|k] eqn:Ek; [change (2 ^ 0) with 1; lia| |lia].
      apply Z.shiftl_mul_pow2. lia. }
    rewrite E, Z.pow_add_r by lia. nia. }
  pose proof (Z_div_mod m' (Z.pos my) ltac:(lia)) as Hdiv.
  destruct (Z.div_eucl m' (Z.pos my)) as [q r].
  eapply shaped_le; [|apply (binary_round_aux_shaped s q e' _ (53 + sh))];
    try (subst sh e'; lia).
  nia.
Qed.

Lemma mul_shaped s x my ey :
  shaped s 106 x -> Z.pos my < 2 ^ 53 -> -52 <= ey <= 0 ->
  shaped s 160 (JS.mul x (S754_finite false my ey)).
Proof.
  unfold JS.mul. destruct x as [sx|sx| |sx mx ex]; cbn [shaped SFmul]; intros H Hy He;
    try contradiction; [rewrite xorb_false_r; exact H|].
  destruct H as (-> & Hx & Hex). rewrite xorb_false_r.
  eapply shaped_le; [|apply (binary_round_aux_shaped s _ (ex + ey) loc_Exact 106)];
    try lia.
  rewrite Pos2Z.inj_mul. change (2 ^ 106) with (2 ^ 53 * 2 ^ 53). nia.
Qed.

(** Integers below 2^53 are numbers, exactly. *)
Lemma of_Z_integer z : Z.abs z < 2 ^ 53 -> Spec.is_integer (JS.of_Z z) z.
Proof.
  intros Hz. unfold Spec.is_integer, JS.of_Z, binary_normalize.
  destruct z as [|p|p].
  - split; reflexivity.
  - destruct (binary_round_exact_shape false p ltac:(lia)) as (m & e & -> & He & Hm & _).
    cbn [JS.isFinite JS.numerator JS.denominator cond_Zopp].
    split; [reflexivity|]. rewrite (Z.max_l 0 e), (Z.max_r 0 (- e)) by lia.
    change (2 ^ 0) with 1. lia.
  - destruct (binary_round_exact_shape true p ltac:(lia)) as (m & e & -> & He & Hm & _).
    cbn [JS.isFinite JS.numerator JS.denominator cond_Zopp].
    split; [reflexivity|]. rewrite (Z.max_l 0 e), (Z.max_r 0 (- e)) by lia.
    change (2 ^ 0) with 1. lia.
Qed.

(** [Math.round] gives the nearest integer, the upper one of two. *)
Lemma Math_round_nearest s top x :
  shaped s top x ->
  exists n, Spec.is_integer (JS.Math_round x) n /\ Spec.nearest_integer x n.
Proof.
  destruct x as [sx|sx| |sx m e]; cbn [shaped]; intros H; try contradiction.
  - exists 0. split; split; cbn; try reflexivity; lia.
  - destruct H as (_ & Hm & _). cbn [JS.Math_round].
    destruct (0 <=? e) eqn:He.
    + apply Z.leb_le in He.
      exists (cond_Zopp sx (Z.pos m) * 2 ^ e).
      unfold Spec.is_integer, Spec.nearest_integer.
      cbn [JS.isFinite JS.numerator JS.denominator].
      rewrite (Z.max_r 0 e), (Z.max_l 0 (- e)) by lia. change (2 ^ 0) with 1.
      split; split; try reflexivity; lia.
    + apply Z.leb_gt in He.
      set (v := cond_Zopp sx (Z.pos m)).
      set (D := 2 ^ (- e)).
      assert (HD : 2 <= D).
      { subst D. change 2 with (2 ^ 1) at 1. apply Z.pow_le_mono_r; lia. }
      assert (Hq : 2 ^ (1 - e) = 2 * D).
      { subst D. replace (1 - e) with (Z.succ (- e)) by lia. apply Z.pow_succ_r. lia. }
      rewrite Hq.
      set (n := (2 * v + D) / (2 * D)).
      pose proof (Z.div_mod (2 * v + D) (2 * D) ltac:(lia)) as Hdm.
      pose proof (Z.mod_pos_bound (2 * v + D) (2 * D) ltac:(lia)) as Hmod.
      fold n in Hdm.
      assert (Hnear : (2 * n - 1) * D <= 2 * v < (2 * n + 1) * D) by nia.
      assert (Hv : Z.abs v < 2 ^ 53) by (subst v; destruct sx; cbn; lia).
      assert (Hn : Z.abs n < 2 ^ 53).
      { assert (HT : 2 <= 2 ^ 53) by discriminate.
        revert Hv HT. generalize (2 ^ 53). intros T Hv HT.
        destruct (Z_lt_le_dec 0 n) as [Hpos|Hle].
        - assert ((2 * n - 1) * 2 <= (2 * n - 1) * D)
            by (apply Z.mul_le_mono_nonneg_l; lia).
          lia.
        - destruct (Z.eq_dec n 0) as [->|Hn0]; [cbn; lia|].
          assert ((2 * n + 1) * D <= (2 * n + 1) * 2)
            by (apply Z.mul_le_mono_nonpos_l; lia).
          lia. }
      exists n. split.
      * destruct (n =? 0) eqn:En.
        -- apply Z.eqb_eq in En. rewrite En. split; reflexivity.
        -- apply of_Z_integer, Hn.
      * unfold Spec.nearest_integer. cbn [JS.isFinite JS.numerator JS.denominator].
        rewrite (Z.max_l 0 e), (Z.max_r 0 (- e)) by lia. change (2 ^ 0) with 1.
        fold v D. split; [reflexivity|]. lia.
Qed.

(** C9, as stated, fails when the formula is read as arithmetic: for 40
    bytes compressed to 17 the quotient is 57.5 exactly, which rounds
    to 58 (upwards, and to the even neighbour as well), but the code
    returns 57, because 23/40 is rounded down to a double whose
    hundredfold is just below 57.5. *)
Lemma ratio_formula_counterexample : ~ Claimed.ratio_formula 40 17.
Proof.
  unfold Claimed.ratio_formula, Spec.is_integer. intros H.
  specialize (H ltac:(discriminate)). destruct H as [_ H].
  vm_compute in H. discriminate.
Qed.

(** C9, amended. For every pair of byte counts (original, compressed)
    the ratio is 0 when original is 0.  Otherwise it is an integer: the
    integer nearest, the upper one of two, to the JavaScript number
    that ((original - compressed) / original) * 100 evaluates to, which
    is a zero or a finite binary64 number.  It is never NaN, it is
    positive exactly when the output is smaller than the input and the
    ratio did not round to zero, and negative exactly when the output
    grew and the ratio did not round to zero.  Byte counts are integers
    below 2^53, the range in which a JavaScript number holds every
    integer. *)
Theorem compressionRatio_sign (original compressed : Z) :
  0 <= original < 2 ^ 53 -> 0 <= compressed < 2 ^ 53 ->
  let r := FileIO.compressionRatio (JS.of_Z original) (JS.of_Z compressed) in
  let x := JS.mul (JS.div (JS.sub (JS.of_Z original) (JS.of_Z compressed))
                     (JS.of_Z original))
             (JS.of_Z 100) in
  (original = 0 -> r = JS.of_Z 0)
  /\ (original <> 0 ->
      exists n, Spec.is_integer r n /\ Spec.nearest_integer x n)
  /\ JS.isNaN r = false
  /\ (JS.gt r (JS.of_Z 0) = true
      <-> compressed < original /\ JS.strict_eq r (JS.of_Z 0) = false)
  /\ (JS.lt r (JS.of_Z 0) = true
      <-> original < compressed /\ JS.strict_eq r (JS.of_Z 0) = false).
Proof.
  intros Ho Hc r x.
  destruct (Z.eq_dec original 0) as [->|Hne].
  - assert (Hr : r = JS.of_Z 0) by reflexivity.
    rewrite Hr. split; [reflexivity|]. split; [congruence|].
    split; [reflexivity|]. split; split; cbn; intuition congruence.
  - destruct (ratio_signed original compressed ltac:(lia) Hc) as (Hr & Hlt & Hgt & Heq).
    fold r in Hr, Hlt, Hgt, Heq. fold x in Hr.
    split; [congruence|]. split.
    { intros _. rewrite Hr.
      destruct (sub_shaped original compressed Ho Hc) as [s Hs].
      destruct (of_Z_shape original ltac:(lia)) as (mo & eo & Eo & Heo & _ & Hbo).
      destruct (of_Z_shape 100 ltac:(split; reflexivity)) as (mh & eh & Eh & Heh & _ & Hbh).
      apply (Math_round_nearest s 160). subst x. rewrite Eh. rewrite Eo at 2.
      apply mul_shaped; [|exact Hbh|exact Heh].
      apply div_shaped; [exact Hs|exact Hbo|exact Heo]. }
    destruct (Z.lt_trichotomy compressed original) as [H|[H|H]].
    + specialize (Hlt H). destruct (signed_false_gt r Hlt) as [Eg El].
      split; [exact (signed_not_nan _ _ Hlt)|].
      rewrite Eg, El, negb_true_iff. split; split; intros; intuition (congruence || lia).
    + symmetry in H. rewrite (Heq H).
      split; [reflexivity|]. split; split; cbn; intuition congruence.
    + specialize (Hgt H). destruct (signed_true_lt r Hgt) as [El Eg].
      split; [exact (signed_not_nan _ _ Hgt)|].
      rewrite Eg, El, negb_true_iff. split; split; intros; intuition (congruence || lia).
Qed.

Lemma compressionRatio_sign_witness :
  0 <= 1000 < 2 ^ 53 /\ 0 <= 250 < 2 ^ 53
  /\ FileIO.compressionRatio (JS.of_Z 1000) (JS.of_Z 250) = JS.of_Z 75
  /\ (exists n, Spec.is_integer (FileIO.compressionRatio (JS.of_Z 1000) (JS.of_Z 250)) n)
  /\ JS.gt (FileIO.compressionRatio (JS.of_Z 1000) (JS.of_Z 250)) (JS.of_Z 0) = true.
Proof.
  assert (Ho : 0 <= 1000 < 2 ^ 53) by (split; [discriminate|reflexivity]).
  assert (Hc : 0 <= 250 < 2 ^ 53) by (split; [discriminate|reflexivity]).
  split; [exact Ho|]. split; [exact Hc|]. split; [vm_compute; reflexivity|].
  destruct (compressionRatio_sign 1000 250 Ho Hc) as (_ & Hn & _ & H & _).
  split.
  - destruct (Hn ltac:(discriminate)) as (n & Hint & _). exists n. exact Hint.
  - apply H. split; [reflexivity|vm_compute; reflexivity].
Defined.

(** The ratio on some byte counts.  Three of them are binary64 at work:
    29/200 and 23/40 are rounded down to a double, so that the
    hundredfold is just below 14.5 and 57.5, while 5/8 is a double and
    62.5 is rounded upwards. *)

Example ratio_1000_250 : FileIO.compressionRatio (JS.of_Z 1000) (JS.of_Z 250) = JS.of_Z 75.
Proof. vm_compute. reflexivity. Qed.
Example ratio_200_171 : FileIO.compressionRatio (JS.of_Z 200) (JS.of_Z 171) = JS.of_Z 14.
Proof. vm_compute. reflexivity. Qed.
Example ratio_40_17 : FileIO.compressionRatio (JS.of_Z 40) (JS.of_Z 17) = JS.of_Z 57.
Proof. vm_compute. reflexivity. Qed.
Example ratio_8_3 : FileIO.compressionRatio (JS.of_Z 8) (JS.of_Z 3) = JS.of_Z 63.
Proof. vm_compute. reflexivity. Qed.
Example ratio_100_150 : FileIO.compressionRatio (JS.of_Z 100) (JS.of_Z 150) = JS.of_Z (-50).
Proof. vm_compute. reflexivity. Qed.
Example ratio_1000_999 : FileIO.compressionRatio (JS.of_Z 1000) (JS.of_Z 999) = S754_zero false.
Proof. vm_compute. reflexivity. Qed.
Example ratio_1000_1001 : FileIO.compressionRatio (JS.of_Z 1000) (JS.of_Z 1001) = S754_zero true.
Proof. vm_compute. reflexivity. Qed.
Example ratio_3_4 : FileIO.compressionRatio (JS.of_Z 3) (JS.of_Z 4) = JS.of_Z (-33).
Proof. vm_compute. reflexivity. Qed.
Example ratio_200_199 : FileIO.compressionRatio (JS.of_Z 200) (JS.of_Z 199) = JS.of_Z 1.
Proof. vm_compute. reflexivity. Qed.
Example ratio_200_201 : FileIO.compressionRatio (JS.of_Z 200) (JS.of_Z 201) = S754_zero true.
Proof. vm_compute. reflexivity. Qed.


(* ===================================================================== *)
(** ** Beyond the claims: which files are accepted *)
(* ===================================================================== *)

(** What [mimeToFormat] returns, from the spelling of its argument. *)
Lemma mimeToFormat_keys_format mime f :
  Engine.mimeToFormat mime = Some (Engine.Format f) <->
    Spec.spelled (Engine.formatToMime f) mime = true
    \/ (f = jpeg /\ Spec.spelled "image/jpg" mime = true)
    \/ (f = heic /\ Spec.spelled "image/heif" mime = true).
Proof.
  rewrite mimeToFormat_folded. cbn zeta. unfold Engine.formatToMime.
  destruct f; cbn [Engine.FORMAT_TO_MIME]; rewrite !spelled_decide by reflexivity;
    rewrite !bool_decide_eq_true;
    generalize (JS.toLowerCase mime); intros k;
    repeat case_decide; subst; intuition (discriminate || congruence).
Qed.

Lemma mimeToFormat_keys_inherited mime v :
  Engine.mimeToFormat mime = Some (Engine.Inherited v) <->
    (v = JS.Object_constructor /\ Spec.spelled "constructor" mime = true)
    \/ (v = JS.Object_prototype /\ Spec.spelled "__proto__" mime = true).
Proof.
  rewrite mimeToFormat_folded. cbn zeta.
  rewrite !spelled_decide by reflexivity. rewrite !bool_decide_eq_true.
  generalize (JS.toLowerCase mime). intros k.
  repeat case_decide; subst; intuition (discriminate || congruence).
Qed.

Lemma mimeToFormat_keys_null mime :
  Engine.mimeToFormat mime = None <->
    Forall (fun key => Spec.spelled key mime = false)
      [ "image/jpeg"; "image/jpg"; "image/png"; "image/webp"; "image/avif";
        "image/jxl"; "image/heic"; "image/heif"; "constructor"; "__proto__" ].
Proof.
  rewrite mimeToFormat_folded. cbn zeta.
  rewrite !Forall_cons, Forall_nil. rewrite !spelled_decide by reflexivity.
  rewrite !bool_decide_eq_false.
  generalize (JS.toLowerCase mime). intros k.
  repeat case_decide; subst; intuition (discriminate || congruence).
Qed.

(** Every decode calls a codec. *)
Lemma decodeImage_calls C file w :
  exists c rest, made (Codec.decodeImage C file) w = c :: rest.
Proof.
  unfold Codec.decodeImage, Codec.decodeWithCanvas.
  destruct (Engine.mimeToFormat (file_type file)) as [[[]|v]|]; run; answers; log;
    eexists _, _; reflexivity.
Qed.

(** X1. What [mimeToFormat] returns depends on the spelling of the mime
    type alone, capitals counting as small letters.  It returns a format
    exactly for the spellings of that format's output mime type and of
    the two aliases, image/jpg for jpeg and image/heif for heic.  For
    the spellings of "constructor" and of "__proto__" it returns no
    format and not null either, but what the table object inherits
    under that name: the function [Object], and [Object.prototype].
    Every other string gives null. *)
Theorem mimeToFormat_keys mime :
  (forall f,
     Engine.mimeToFormat mime = Some (Engine.Format f) <->
       Spec.spelled (Engine.formatToMime f) mime = true
       \/ (f = jpeg /\ Spec.spelled "image/jpg" mime = true)
       \/ (f = heic /\ Spec.spelled "image/heif" mime = true))
  /\ (forall v,
       Engine.mimeToFormat mime = Some (Engine.Inherited v) <->
         (v = JS.Object_constructor /\ Spec.spelled "constructor" mime = true)
         \/ (v = JS.Object_prototype /\ Spec.spelled "__proto__" mime = true))
  /\ (Engine.mimeToFormat mime = None <->
       Forall (fun key => Spec.spelled key mime = false)
         [ "image/jpeg"; "image/jpg"; "image/png"; "image/webp"; "image/avif";
           "image/jxl"; "image/heic"; "image/heif"; "constructor"; "__proto__" ]).
Proof.
  split; [intros f; apply mimeToFormat_keys_format|].
  split; [intros v; apply mimeToFormat_keys_inherited|apply mimeToFormat_keys_null].
Qed.

(** X2. [isSupportedFile] accepts a file exactly when its type is a
    spelling of one of the eight keys of the table, that is, exactly
    when [mimeToFormat] returns a format for it.  The guard of
    [compressFile] lets more through: it stops a file, with the
    unsupported-input error and before any codec call, exactly when
    [mimeToFormat] returns null, so a file whose type is a spelling of
    "constructor" or "__proto__" is rejected by [isSupportedFile] and
    yet passes the guard, and a codec is called for it. *)
Theorem isSupportedFile_iff C file q format w :
  (Compressor.isSupportedFile file = true <->
     exists f, Engine.mimeToFormat (file_type file) = Some (Engine.Format f))
  /\ (Compressor.isSupportedFile file = true <->
      Exists (fun key => Spec.spelled key (file_type file) = true)
        [ "image/jpeg"; "image/jpg"; "image/png"; "image/webp"; "image/avif";
          "image/jxl"; "image/heic"; "image/heif" ])
  /\ (Compressor.isSupportedFile file = true
      \/ Spec.spelled "constructor" (file_type file) = true
      \/ Spec.spelled "__proto__" (file_type file) = true ->
      exists c rest, made (Compressor.compressFile C file q format) w = c :: rest)
  /\ (Compressor.isSupportedFile file = false ->
      Spec.spelled "constructor" (file_type file) = false ->
      Spec.spelled "__proto__" (file_type file) = false ->
      Compressor.compressFile C file q format w
      = (w, inl (JS.ErrorObj ("不支持的输入格式: " +:+ file_type file)))).
Proof.
  split; [apply supported_iff_format|]. split; [|split].
  - rewrite supported_iff_format, mimeToFormat_spelled.
    rewrite !Exists_cons, Exists_nil.
    repeat match goal with
           | |- context [if Spec.spelled ?k ?m then Some (Engine.Format ?f) else _] =>
               destruct (Spec.spelled k m) eqn:?; [split; [tauto|eexists; reflexivity]|]
           end.
    split; [|intuition discriminate].
    intros [f H]. exfalso.
    destruct (Spec.spelled "constructor" _); [discriminate|].
    destruct (Spec.spelled "__proto__" _); discriminate.
  - intros H.
    assert (Hm : exists m, Engine.mimeToFormat (file_type file) = Some m).
    { destruct H as [H|H].
      - apply supported_iff_format in H as [f Hf]. eexists. exact Hf.
      - destruct H as [H|H]; eexists; apply mimeToFormat_keys_inherited;
          [left|right]; (split; [reflexivity|exact H]). }
    destruct Hm as [[f|v] Hm].
    + rewrite (compressFile_made _ _ _ _ _ _ Hm).
      destruct (decodeImage_calls C file w) as (c & rest & ->). eexists _, _. reflexivity.
    + rewrite (compressFile_made_inherited _ _ _ _ _ _ Hm).
      destruct (decodeImage_calls C file w) as (c & rest & ->). eexists _, _. reflexivity.
  - intros Hs H1 H2. pose proof (mimeToFormat_rejected file Hs) as Hm.
    rewrite H1, H2 in Hm. unfold Compressor.compressFile. rewrite Hm. reflexivity.
Qed.

Lemma isSupportedFile_iff_witness :
  Compressor.isSupportedFile Fixture.odd_file = false
  /\ exists c rest,
       made (Compressor.compressFile Sample.codecs Fixture.odd_file None None) fresh_worker
       = c :: rest.
Proof.
  split; [vm_compute; reflexivity|].
  destruct (isSupportedFile_iff Sample.codecs Fixture.odd_file None None fresh_worker)
    as (_ & _ & H & _).
  apply H. right. left. vm_compute. reflexivity.
Defined.


(* ===================================================================== *)
(** ** Beyond the claims: the codec calls of a compression *)
(* ===================================================================== *)

Lemma decodeImage_no_canvas C file f w :
  Engine.mimeToFormat (file_type file) = Some (Engine.Format f) ->
  CanvasDecode ∉ made (Codec.decodeImage C file) w.
Proof.
  intros Hf. unfold Codec.decodeImage. rewrite Hf.
  destruct f; run; answers; log; cbn [app]; absent.
Qed.

Lemma encodeImage_no_canvas C img f q w :
  CanvasDecode ∉ made (Codec.encodeImage C img f q) w.
Proof.
  unfold Codec.encodeImage, Codec.jxl_module.
  destruct f; run; answers; log; cbn [app]; absent.
Qed.

(** X3. [compressFile] decodes on the canvas exactly when the type of
    the file is a spelling of "constructor" or of "__proto__", whatever
    the settings and the answers of the codecs; the canvas call is then
    the first call it makes.  For every file [isSupportedFile] accepts,
    and so for every file [addFiles] lets in, the fallback of
    [decodeImage] is out of reach. *)
Theorem compressFile_canvas_iff C file q format w :
  (CanvasDecode ∈ made (Compressor.compressFile C file q format) w <->
     Spec.spelled "constructor" (file_type file) = true
     \/ Spec.spelled "__proto__" (file_type file) = true)
  /\ (CanvasDecode ∈ made (Compressor.compressFile C file q format) w ->
      Compressor.isSupportedFile file = false
      /\ exists rest,
           made (Compressor.compressFile C file q format) w = CanvasDecode :: rest).
Proof.
  assert (Hcan : forall v,
            Engine.mimeToFormat (file_type file) = Some (Engine.Inherited v) ->
            exists rest,
              made (Compressor.compressFile C file q format) w = CanvasDecode :: rest).
  { intros v Hv. rewrite (compressFile_made_inherited _ _ _ _ _ _ Hv).
    assert (Hd : made (Codec.decodeImage C file) w = [CanvasDecode]).
    { unfold made. rewrite decodeImage_canvas by (rewrite Hv; discriminate).
      run. apply (drop_calls _ [_]). }
    rewrite Hd. eexists. reflexivity. }
  assert (Hiff : CanvasDecode ∈ made (Compressor.compressFile C file q format) w <->
                 exists v, Engine.mimeToFormat (file_type file) = Some (Engine.Inherited v)).
  { destruct (Engine.mimeToFormat (file_type file)) as [[f|v]|] eqn:Hf.
    - split; [|intros [v Hv]; discriminate]. intros Hin. exfalso. revert Hin.
      rewrite (compressFile_made _ _ _ _ f) by exact Hf.
      apply not_elem_of_app. split; [by eapply decodeImage_no_canvas|].
      destruct (Codec.decodeImage C file w) as [w1 [e|img]]; [absent|].
      apply encodeImage_no_canvas.
    - split; [intros _; exists v; reflexivity|]. intros _.
      destruct (Hcan v eq_refl) as [rest ->]. left.
    - split; [|intros [v Hv]; discriminate].
      unfold made, Compressor.compressFile. rewrite Hf. unfold throw. cbn [fst].
      log. absent. }
  pose proof (mimeToFormat_keys_inherited (file_type file)) as Hk.
  split.
  - rewrite Hiff. split.
    + intros [v Hv]. apply Hk in Hv as [[_ H]|[_ H]]; [left|right]; exact H.
    + intros [H|H]; eexists; apply Hk; [left|right]; (split; [reflexivity|exact H]).
  - intros Hin. apply Hiff in Hin as [v Hv]. split; [|exact (Hcan v Hv)].
    destruct (Compressor.isSupportedFile file) eqn:Hs; [|reflexivity].
    apply supported_iff_format in Hs as [f Hf]. congruence.
Qed.

Lemma compressFile_canvas_iff_witness :
  exists rest,
    made (Compressor.compressFile Sample.codecs Fixture.odd_file None None) fresh_worker
    = CanvasDecode :: rest.
Proof.
  destruct (compressFile_canvas_iff Sample.codecs Fixture.odd_file None None fresh_worker)
    as [H1 H2].
  apply H2, H1. left. vm_compute. reflexivity.
Defined.

(** X4. When the decoder fails, [compressFile] fails with the very value
    the decoder threw, in the state the decoder left, and no encoder is
    called. *)
Theorem decode_failure_stops C file q format inputFormat w e :
  Engine.mimeToFormat (file_type file) = Some (Engine.Format inputFormat) ->
  (Codec.decodeImage C file w).2 = inl e ->
  Compressor.compressFile C file q format w = ((Codec.decodeImage C file w).1, inl e)
  /\ made (Compressor.compressFile C file q format) w = made (Codec.decodeImage C file) w.
Proof.
  intros Hf He. split.
  - rewrite (compressFile_known _ _ _ _ _ Hf). unfold mbind, M_bind.
    destruct (Codec.decodeImage C file w) as [w1 [e'|img]]; cbn [fst snd] in *;
      congruence.
  - rewrite (compressFile_made _ _ _ _ inputFormat) by exact Hf.
    destruct (Codec.decodeImage C file w) as [w1 [e'|img]]; cbn [fst snd] in *;
      [log; reflexivity | discriminate].
Qed.

Lemma decode_failure_stops_witness :
  Engine.mimeToFormat (file_type (Fixture.photo "a.jpg" "image/jpeg"))
    = Some (Engine.Format jpeg)
  /\ made (Compressor.compressFile (Fixture.with_jpeg_decode (inl Fixture.corrupt))
             (Fixture.photo "a.jpg" "image/jpeg") None (Some png)) fresh_worker
     = [JpegDecode].
Proof.
  assert (Hf : Engine.mimeToFormat (file_type (Fixture.photo "a.jpg" "image/jpeg"))
               = Some (Engine.Format jpeg)) by (vm_compute; reflexivity).
  split; [exact Hf|].
  destruct (decode_failure_stops (Fixture.with_jpeg_decode (inl Fixture.corrupt))
              (Fixture.photo "a.jpg" "image/jpeg") None (Some png) jpeg fresh_worker
              Fixture.corrupt Hf) as [_ H].
  - vm_compute. reflexivity.
  - rewrite H. vm_compute. reflexivity.
Defined.

(** X5. The decoder is chosen by the mime type of the input alone: the
    first codec call of [compressFile] is the decoder of the input's
    format, whatever the target format and the quality level. *)
Theorem decoder_follows_input C file q format inputFormat w :
  Engine.mimeToFormat (file_type file) = Some (Engine.Format inputFormat) ->
  exists rest,
    made (Compressor.compressFile C file q format) w =
      match inputFormat with
      | jpeg => JpegDecode | png => PngDecode | webp => WebpDecode
      | avif => AvifDecode | jxl => JxlDecode | heic => HeifDecode
      end :: rest.
Proof.
  intros Hf. rewrite (compressFile_made _ _ _ _ inputFormat) by exact Hf.
  unfold Codec.decodeImage at 1. rewrite Hf.
  destruct inputFormat; run; answers; log; eexists; reflexivity.
Qed.

Lemma decoder_follows_input_witness :
  Engine.mimeToFormat (file_type (Fixture.photo "a.webp" "IMAGE/WebP"))
    = Some (Engine.Format webp)
  /\ exists rest,
       made (Compressor.compressFile Sample.codecs (Fixture.photo "a.webp" "IMAGE/WebP")
               (Some low) (Some avif)) fresh_worker = WebpDecode :: rest.
Proof.
  assert (Hf : Engine.mimeToFormat (file_type (Fixture.photo "a.webp" "IMAGE/WebP"))
               = Some (Engine.Format webp)) by (vm_compute; reflexivity).
  split; [exact Hf|].
  exact (decoder_follows_input Sample.codecs (Fixture.photo "a.webp" "IMAGE/WebP")
           (Some low) (Some avif) webp fresh_worker Hf).
Defined.

(** X6. What [compressFile] returns can be compressed again: the mime
    type of the blob maps back to the output format (the target format,
    or the input's format when none was asked for), a file of that type
    is accepted by [isSupportedFile], and the extension derived from it
    is the format's name, with jpg for jpeg. *)
Theorem output_is_input_again C file q format inputFormat w w' b :
  Engine.mimeToFormat (file_type file) = Some (Engine.Format inputFormat) ->
  Compressor.compressFile C file q format w = (w', inr b) ->
  let outputFormat := JS.nullish format inputFormat in
  Engine.mimeToFormat (blob_type b) = Some (Engine.Format outputFormat)
  /\ FileIO.mimeToExtension (blob_type b)
     = (if decide (outputFormat = jpeg) then "jpg" else format_name outputFormat)
  /\ forall name bytes size,
       Compressor.isSupportedFile
         {| file_name := name; file_type := blob_type b; file_size := size;
            file_bytes := bytes |} = true.
Proof.
  intros Hf Hrun outputFormat.
  assert (Hb : blob_type b = Engine.formatToMime outputFormat).
  { rewrite (compressFile_known _ _ _ _ _ Hf) in Hrun.
    unfold mbind, M_bind, mret, M_ret in Hrun.
    destruct (Codec.decodeImage C file w) as [w1 [e|img]]; [discriminate|].
    destruct (Codec.encodeImage C img _ _ w1) as [w2 [e|buffer]]; [discriminate|].
    injection Hrun as _ <-. reflexivity. }
  assert (Hm : Engine.mimeToFormat (blob_type b) = Some (Engine.Format outputFormat)).
  { rewrite Hb. apply mimeToFormat_output. }
  split; [exact Hm|]. split.
  - unfold FileIO.mimeToExtension. rewrite Hm. destruct outputFormat; reflexivity.
  - intros. apply supported_iff_format. exists outputFormat. exact Hm.
Qed.

Lemma output_is_input_again_witness :
  exists b,
    (Compressor.compressFile Sample.codecs (Fixture.photo "a.png" "image/png")
       None (Some jpeg) fresh_worker).2 = inr b
    /\ Engine.mimeToFormat (blob_type b) = Some (Engine.Format jpeg)
    /\ FileIO.mimeToExtension (blob_type b) = "jpg".
Proof.
  eexists. split; [vm_compute; reflexivity|].
  destruct (output_is_input_again Sample.codecs (Fixture.photo "a.png" "image/png")
              None (Some jpeg) png fresh_worker
              (Compressor.compressFile Sample.codecs (Fixture.photo "a.png" "image/png")
                 None (Some jpeg) fresh_worker).1
              {| blob_bytes := Sample.encoded; blob_type := "image/jpeg" |})
    as (H1 & H2 & _).
  - vm_compute. reflexivity.
  - vm_compute. reflexivity.
  - split; [exact H1 | exact H2].
Defined.

(* ===================================================================== *)
(** ** Beyond the claims: the JXL module of a worker *)
(* ===================================================================== *)

Lemma decodeImage_no_factory C file w :
  JxlFactory ∉ made (Codec.decodeImage C file) w.
Proof.
  unfold Codec.decodeImage, Codec.decodeWithCanvas.
  destruct (Engine.mimeToFormat (file_type file)) as [[[]|v]|]; run; answers; log;
    cbn [app]; absent.
Qed.

Lemma encodeImage_loaded C img f q w :
  jxlModuleInstance w = true ->
  jxlModuleInstance (Codec.encodeImage C img f q w).1 = true
  /\ JxlFactory ∉ made (Codec.encodeImage C img f q) w.
Proof.
  intros Hw. unfold Codec.encodeImage, Codec.jxl_module.
  destruct f; run; rewrite ?Hw; run; answers;
    (split; [first [assumption | reflexivity]|]); log; cbn [app]; absent.
Qed.

(** X7. Once a worker holds the JXL module it keeps it: a compression
    started with the module in place never calls the factory again and
    ends with the module in place, whether it succeeds or fails. *)
Theorem jxl_module_stays_loaded C file q format w :
  jxlModuleInstance w = true ->
  jxlModuleInstance (Compressor.compressFile C file q format w).1 = true
  /\ JxlFactory ∉ made (Compressor.compressFile C file q format) w.
Proof.
  intros Hw.
  destruct (decodeImage_log C file w) as [_ Hj].
  pose proof (decodeImage_no_factory C file w) as Hd.
  destruct (Engine.mimeToFormat (file_type file)) as [[f|v]|] eqn:Hf.
  - rewrite (compressFile_made _ _ _ _ f) by exact Hf.
    rewrite (compressFile_known _ _ _ _ _ Hf). unfold mbind, M_bind, mret, M_ret.
    destruct (Codec.decodeImage C file w) as [w1 [e|img]]; cbn [fst snd] in *.
    + split; [congruence|]. log. exact Hd.
    + destruct (encodeImage_loaded C img (JS.nullish format f) (JS.nullish q balanced) w1
                  ltac:(congruence)) as [He1 He2].
      split.
      * destruct (Codec.encodeImage C img _ _ w1) as [w2 [e|buffer]]; exact He1.
      * rewrite not_elem_of_app. split; assumption.
  - rewrite (compressFile_made_inherited _ _ _ _ _ _ Hf).
    rewrite (compressFile_inherited _ _ _ _ _ Hf). unfold mbind at 1, M_bind.
    destruct (Codec.decodeImage C file w) as [w1 [e|img]]; cbn [fst snd] in *.
    + split; [congruence|]. log. exact Hd.
    + destruct format as [f|].
      * unfold mbind, M_bind, mret, M_ret.
        destruct (encodeImage_loaded C img f (JS.nullish q balanced) w1
                    ltac:(congruence)) as [He1 He2].
        split.
        -- destruct (Codec.encodeImage C img _ _ w1) as [w2 [e|buffer]]; exact He1.
        -- rewrite not_elem_of_app. split; assumption.
      * unfold Codec.encodeImage_default, throw. cbn [fst].
        split; [congruence|]. log. exact Hd.
  - unfold made, Compressor.compressFile. rewrite Hf. unfold throw. cbn [fst].
    split; [exact Hw|]. log. absent.
Qed.

Lemma jxl_module_stays_loaded_witness :
  jxlModuleInstance Fixture.loaded_worker = true
  /\ jxlModuleInstance
       (Compressor.compressFile Sample.codecs (Fixture.photo "a.png" "image/png")
          None (Some jxl) Fixture.loaded_worker).1 = true
  /\ JxlFactory
       ∉ made (Compressor.compressFile Sample.codecs (Fixture.photo "a.png" "image/png")
                 None (Some jxl)) Fixture.loaded_worker.
Proof.
  split; [reflexivity|].
  apply (jxl_module_stays_loaded Sample.codecs (Fixture.photo "a.png" "image/png")
           None (Some jxl) Fixture.loaded_worker).
  reflexivity.
Defined.

(** X8. When the factory of the JXL module throws, the encode fails with
    the value the factory threw, unwrapped; the encoder is not called
    and the worker is left without the module, so that the next JXL
    encode calls the factory again. *)
Theorem jxl_factory_failure C img q w e :
  jxlModuleInstance w = false ->
  jxl_factory C = inl e ->
  (Codec.encodeImage C img jxl q w).2 = inl e
  /\ jxlModuleInstance (Codec.encodeImage C img jxl q w).1 = false
  /\ made (Codec.encodeImage C img jxl q) w = [JxlFactory]
  /\ forall img' q',
       exists rest,
         made (Codec.encodeImage C img' jxl q') (Codec.encodeImage C img jxl q w).1
         = JxlFactory :: rest.
Proof.
  intros Hw He.
  assert (H : forall img q w, jxlModuleInstance w = false ->
            (Codec.encodeImage C img jxl q w).2 = inl e
            /\ jxlModuleInstance (Codec.encodeImage C img jxl q w).1 = false
            /\ made (Codec.encodeImage C img jxl q) w = [JxlFactory]).
  { clear img q w Hw. intros img q w Hw.
    unfold Codec.encodeImage, Codec.jxl_module. run.
    rewrite Hw. run. rewrite He. cbn [fst snd jxlModuleInstance calls].
    split; [reflexivity|]. split; [exact Hw|]. log. reflexivity. }
  destruct (H img q w Hw) as (H1 & H2 & H3).
  split; [exact H1|]. split; [exact H2|]. split; [exact H3|].
  intros img' q'. exists []. apply (H img' q' _ H2).
Qed.

Lemma jxl_factory_failure_witness :
  jxlModuleInstance fresh_worker = false
  /\ jxl_factory (Fixture.with_jxl (inl Fixture.corrupt) (inr None)) = inl Fixture.corrupt
  /\ (Codec.encodeImage (Fixture.with_jxl (inl Fixture.corrupt) (inr None))
        (Sample.image 4 3) jxl high fresh_worker).2 = inl Fixture.corrupt.
Proof.
  split; [reflexivity|]. split; [reflexivity|].
  apply (jxl_factory_failure (Fixture.with_jxl (inl Fixture.corrupt) (inr None))
           (Sample.image 4 3) high fresh_worker Fixture.corrupt); reflexivity.
Defined.

(** X9. The first JXL encode of a worker whose factory succeeds calls
    the factory, then the encoder, and leaves the module in place,
    whatever the encoder answers. *)
Theorem jxl_first_load C img q w :
  jxlModuleInstance w = false ->
  jxl_factory C = inr tt ->
  jxlModuleInstance (Codec.encodeImage C img jxl q w).1 = true
  /\ exists o, made (Codec.encodeImage C img jxl q) w
               = [JxlFactory; JxlEncode (width img) (height img) o].
Proof.
  intros Hw He. unfold Codec.encodeImage, Codec.jxl_module. run.
  rewrite Hw. run. rewrite He. run.
  destruct (jxl_encode C _ _ _ _) as [err|[r|]]; run;
    (split; [reflexivity|]); eexists; log; reflexivity.
Qed.

Lemma jxl_first_load_witness :
  jxlModuleInstance fresh_worker = false
  /\ jxl_factory (Fixture.with_jxl (inr tt) (inl Fixture.trap)) = inr tt
  /\ jxlModuleInstance
       (Codec.encodeImage (Fixture.with_jxl (inr tt) (inl Fixture.trap))
          (Sample.image 4 3) jxl high fresh_worker).1 = true.
Proof.
  split; [reflexivity|]. split; [reflexivity|].
  apply (jxl_first_load (Fixture.with_jxl (inr tt) (inl Fixture.trap))
           (Sample.image 4 3) high fresh_worker); reflexivity.
Defined.

(* ===================================================================== *)
(** ** Beyond the claims: what the encoders are called with *)
(* ===================================================================== *)

Lemma prefix_app sub s t :
  String.prefix sub s = true -> String.prefix sub (s +:+ t) = true.
Proof.
  revert s. induction sub as [|c sub IH]; intros s H;
    [destruct (s +:+ t); reflexivity|].
  destruct s as [|d s]; [discriminate|].
  change (String d s +:+ t) with (String d (s +:+ t)).
  cbn [String.prefix] in *.
  destruct (Ascii.ascii_dec c d); [apply IH, H | discriminate].
Qed.

Lemma includes_app_l s t sub :
  JS.includes s sub = true -> JS.includes (s +:+ t) sub = true.
Proof.
  induction s as [|c s IH]; cbn [JS.includes]; intros H.
  - rewrite orb_false_r in H. destruct sub; [|discriminate].
    destruct t; reflexivity.
  - apply orb_true_iff in H as [H|H].
    + pose proof (prefix_app _ (String c s) t H) as Hp.
      change (String c s +:+ t) with (String c (s +:+ t)) in *.
      cbn [JS.includes]. rewrite Hp. reflexivity.
    + change (String c s +:+ t) with (String c (s +:+ t)).
      cbn [JS.includes]. rewrite (IH H). apply orb_true_r.
Qed.

Lemma includes_app_r p s sub :
  JS.includes s sub = true -> JS.includes (p +:+ s) sub = true.
Proof.
  intros H. induction p as [|c p IH]; [exact H|].
  change (String c p +:+ s) with (String c (p +:+ s)).
  cbn [JS.includes]. rewrite IH. apply orb_true_r.
Qed.

Lemma crash_message_includes err img o sub :
  JS.includes (JS.toString err) sub = true ->
  JS.includes (Codec.jxl_crash_message err img o) sub = true.
Proof.
  intros H. unfold Codec.jxl_crash_message.
  repeat first [apply includes_app_l; exact H | apply includes_app_r].
Qed.

Lemma includes_refl s : JS.includes s s = true.
Proof.
  assert (H : String.prefix s s = true).
  { induction s as [|c s IH]; [reflexivity|]. cbn [String.prefix].
    destruct (Ascii.ascii_dec c c); [exact IH | contradiction]. }
  destruct s; cbn [JS.includes]; rewrite H; reflexivity.
Qed.

(** X10. When the JXL encoder throws a value whose text contains
    "unreachable", "memory" or "OOM", the error [encodeImage] throws in
    its place, which quotes that text with the image size and the
    options, is turned by the worker into the fixed insufficient-memory
    message: the diagnostic does not reach the page. *)
Theorem jxl_trap_reported_as_memory C img q w err :
  jxlModuleInstance w = true \/ jxl_factory C = inr tt ->
  jxl_encode C (data img) (width img) (height img)
    (Codec.jxl_options img
       (JS.nullish (Config.isLossless (Config.COMPRESSION_CONFIG jxl q)) false)
       (JS.nullish (Config.value (Config.COMPRESSION_CONFIG jxl q)) 80)) = inl err ->
  JS.includes (JS.toString err) "unreachable" = true
  \/ JS.includes (JS.toString err) "memory" = true
  \/ JS.includes (JS.toString err) "OOM" = true ->
  exists thrown,
    (Codec.encodeImage C img jxl q w).2 = inl (JS.ErrorObj thrown)
    /\ JS.includes thrown (JS.toString err) = true
    /\ WorkerScript.translate (JS.ErrorObj thrown) = WorkerScript.out_of_memory.
Proof.
  intros Hm He Hw.
  eexists. split; [|split].
  - unfold Codec.encodeImage, Codec.jxl_module. run.
    destruct Hm as [Hm|Hm].
    + rewrite Hm. run. rewrite He. run. reflexivity.
    + destruct (jxlModuleInstance w); run; [|rewrite Hm; run]; rewrite He; run;
        reflexivity.
  - apply crash_message_includes, includes_refl.
  - unfold WorkerScript.translate.
    destruct Hw as [Hw|[Hw|Hw]];
      rewrite (crash_message_includes _ _ _ _ Hw), ?orb_true_r; reflexivity.
Qed.

Lemma jxl_trap_reported_as_memory_witness :
  JS.includes (JS.toString Fixture.trap) "unreachable" = true
  /\ exists thrown,
       (Codec.encodeImage (Fixture.with_jxl (inr tt) (inl Fixture.trap))
          (Sample.image 4 3) jxl high fresh_worker).2 = inl (JS.ErrorObj thrown)
       /\ WorkerScript.translate (JS.ErrorObj thrown) = WorkerScript.out_of_memory.
Proof.
  assert (Ht : JS.includes (JS.toString Fixture.trap) "unreachable" = true)
    by (vm_compute; reflexivity).
  split; [exact Ht|].
  destruct (jxl_trap_reported_as_memory (Fixture.with_jxl (inr tt) (inl Fixture.trap))
              (Sample.image 4 3) high fresh_worker Fixture.trap
              (or_intror eq_refl) eq_refl (or_introl Ht)) as (thrown & H1 & _ & H2).
  exists thrown. split; assumption.
Defined.

Lemma decodeImage_no_jxl_encode C file w wd ht o :
  JxlEncode wd ht o ∉ made (Codec.decodeImage C file) w.
Proof.
  unfold Codec.decodeImage, Codec.decodeWithCanvas.
  destruct (Engine.mimeToFormat (file_type file)) as [[[]|v]|]; run; answers; log;
    cbn [app]; absent.
Qed.

Lemma encodeImage_jxl_only C img f q w wd ht o :
  JxlEncode wd ht o ∈ made (Codec.encodeImage C img f q) w -> f = jxl.
Proof.
  destruct f; try reflexivity; intros H; exfalso; revert H;
    unfold Codec.encodeImage; run; answers; log; cbn [app]; absent.
Qed.

Lemma jxl_options_bounds img isLossless numeric :
  let o := Codec.jxl_options img isLossless numeric in
  (effort o = 1 \/ effort o = 2 \/ effort o = 3 \/ effort o = 5)
  /\ progressive o = false /\ lossyPalette o = false /\ lossyModular o = false.
Proof.
  cbn. split; [|repeat split].
  unfold Codec.dynamicEffort.
  repeat match goal with
         | |- context [Z.ltb ?a ?b] => destruct (Z.ltb_spec a b)
         end; auto.
Qed.

(** X11. Every call of the JXL encoder that a compression makes, for
    any file, settings and codec answers, has an effort among 1, 2, 3
    and 5 (never above 5), a quality among 60, 80, 90 and 100, and the
    progressive, lossy-palette and lossy-modular modes switched off. *)
Theorem jxl_calls_bounded C file q format w wd ht o :
  JxlEncode wd ht o ∈ made (Compressor.compressFile C file q format) w ->
  (effort o = 1 \/ effort o = 2 \/ effort o = 3 \/ effort o = 5)
  /\ (quality o = 60 \/ quality o = 80 \/ quality o = 90 \/ quality o = 100)
  /\ progressive o = false /\ lossyPalette o = false /\ lossyModular o = false.
Proof.
  intros H.
  assert (Hin : exists img target w1,
            JxlEncode wd ht o
            ∈ made (Codec.encodeImage C img target (JS.nullish q balanced)) w1).
  { destruct (Engine.mimeToFormat (file_type file)) as [[f|v]|] eqn:Hf.
    - rewrite (compressFile_made _ _ _ _ f) in H by exact Hf.
      apply elem_of_app in H as [H|H];
        [exfalso; revert H; apply decodeImage_no_jxl_encode|].
      destruct (Codec.decodeImage C file w) as [w1 [e|img]]; [inversion H|].
      eexists _, _, _. exact H.
    - rewrite (compressFile_made_inherited _ _ _ _ _ _ Hf) in H.
      apply elem_of_app in H as [H|H];
        [exfalso; revert H; apply decodeImage_no_jxl_encode|].
      destruct (Codec.decodeImage C file w) as [w1 [e|img]]; [inversion H|].
      destruct format as [f|]; [|inversion H].
      eexists _, _, _. exact H.
    - exfalso. revert H. unfold made, Compressor.compressFile. rewrite Hf. unfold throw.
      cbn [fst]. log. absent. }
  clear H. destruct Hin as (img & target & w1 & H).
  - pose proof (encodeImage_jxl_only _ _ _ _ _ _ _ _ H) as Hj. rewrite Hj in H.
    apply made_jxl_inv in H as (_ & _ & ->).
    destruct (jxl_options_bounds img
                (JS.nullish (Config.isLossless
                               (Config.COMPRESSION_CONFIG jxl (JS.nullish q balanced))) false)
                (JS.nullish (Config.value
                               (Config.COMPRESSION_CONFIG jxl (JS.nullish q balanced))) 80))
      as (He & Hp & Hlp & Hlm).
    split; [exact He|]. split; [|auto].
    destruct (JS.nullish q balanced); cbn; auto.
Qed.

Lemma jxl_calls_bounded_witness :
  let o := Codec.jxl_options (Sample.image 4 3) true 80 in
  JxlEncode 4 3 o
    ∈ made (Compressor.compressFile Sample.codecs (Fixture.photo "a.png" "image/png")
              (Some lossless) (Some jxl)) fresh_worker
  /\ lossyPalette o = false /\ lossyModular o = false.
Proof.
  intros o.
  assert (H : JxlEncode 4 3 o
    ∈ made (Compressor.compressFile Sample.codecs (Fixture.photo "a.png" "image/png")
              (Some lossless) (Some jxl)) fresh_worker).
  { apply list_elem_of_In. vm_compute. right. right. left. reflexivity. }
  split; [exact H|].
  destruct (jxl_calls_bounded Sample.codecs (Fixture.photo "a.png" "image/png")
              (Some lossless) (Some jxl) fresh_worker 4 3 o H) as (_ & _ & _ & Hp & Hm).
  split; assumption.
Defined.

(** X12. For WebP and AVIF the lossless flag and a numeric quality never
    travel together.  At level lossless the encode makes one call, the
    lossless encode.  At every other level it makes one call as well,
    the lossy encode, with exactly two options: the quality of the table
    row (85, 75, 60 for WebP and 75, 65, 50 for AVIF at high, balanced,
    low) and the row's extra parameter (method 4 for WebP, speed 8 for
    AVIF); there is no lossless flag.  What the encoder answers is the
    result. *)
Theorem lossy_options C img q w :
  (q = lossless ->
   made (Codec.encodeImage C img webp q) w = [WebpEncodeLossless]
   /\ made (Codec.encodeImage C img avif q) w = [AvifEncodeLossless])
  /\ (q <> lossless ->
      let webp_quality := match q with high => 85 | balanced => 75 | _ => 60 end in
      let avif_quality := match q with high => 75 | balanced => 65 | _ => 50 end in
      let webp_options := <[ "quality" := webp_quality ]> {[ "method" := 4 ]} in
      let avif_options := <[ "quality" := avif_quality ]> {[ "speed" := 8 ]} in
      Config.value (Config.COMPRESSION_CONFIG webp q) = Some webp_quality
      /\ Config.value (Config.COMPRESSION_CONFIG avif q) = Some avif_quality
      /\ made (Codec.encodeImage C img webp q) w = [WebpEncode webp_options]
      /\ made (Codec.encodeImage C img avif q) w = [AvifEncode avif_options]
      /\ (Codec.encodeImage C img webp q w).2 = webp_encode C img webp_options
      /\ (Codec.encodeImage C img avif q w).2 = avif_encode C img avif_options
      /\ webp_options !! "lossless" = None /\ avif_options !! "lossless" = None).
Proof.
  split.
  - intros ->. unfold Codec.encodeImage. cbn. run. log. split; reflexivity.
  - intros Hq.
    assert (Hw : forall k, made (codec (A := bytes) k (webp_encode C img
                     (<[ "quality" := match q with high => 85 | balanced => 75 | _ => 60 end ]>
                        {[ "method" := 4 ]}))) w = [k]).
    { intros k. run. log. reflexivity. }
    assert (Ha : forall k, made (codec (A := bytes) k (avif_encode C img
                     (<[ "quality" := match q with high => 75 | balanced => 65 | _ => 50 end ]>
                        {[ "speed" := 8 ]}))) w = [k]).
    { intros k. run. log. reflexivity. }
    destruct q; [congruence| | |]; cbn zeta;
      (split; [reflexivity|]); (split; [reflexivity|]);
      (split; [exact (Hw _)|]); (split; [exact (Ha _)|]);
      (split; [reflexivity|]); (split; [reflexivity|]);
      split; vm_compute; reflexivity.
Qed.

Lemma lossy_options_witness :
  made (Codec.encodeImage Sample.codecs (Sample.image 4 3) webp high) fresh_worker
  = [WebpEncode (<[ "quality" := 85 ]> {[ "method" := 4 ]})]
  /\ made (Codec.encodeImage Sample.codecs (Sample.image 4 3) avif low) fresh_worker
     = [AvifEncode (<[ "quality" := 50 ]> {[ "speed" := 8 ]})].
Proof.
  split.
  - destruct (lossy_options Sample.codecs (Sample.image 4 3) high fresh_worker) as [_ H].
    destruct (H ltac:(discriminate)) as (_ & _ & H1 & _). exact H1.
  - destruct (lossy_options Sample.codecs (Sample.image 4 3) low fresh_worker) as [_ H].
    destruct (H ltac:(discriminate)) as (_ & _ & _ & H1 & _). exact H1.
Defined.

(* ===================================================================== *)
(** ** Beyond the claims: the list of files *)
(* ===================================================================== *)

(** X13. After a fatal worker error no file is left compressing, and
    the files keep their ids and order.  On the list of files a second
    fatal error changes nothing more; on the worker every fatal error
    does the same again: the worker is terminated and a new one, which
    has loaded and posted nothing, takes its place.  The settings are
    not touched. *)
Theorem onerror_leaves_none_compressing st :
  (forall f, f ∈ Hook.files (Hook.onerror st) -> Hook.status f <> Hook.compressing)
  /\ Hook.id <$> Hook.files (Hook.onerror st) = Hook.id <$> Hook.files st
  /\ Queue.isCompressing (Hook.files (Hook.onerror st)) = false
  /\ Hook.files (Hook.onerror (Hook.onerror st)) = Hook.files (Hook.onerror st)
  /\ Hook.terminated (Hook.onerror st) = S (Hook.terminated st)
  /\ Hook.terminated (Hook.onerror (Hook.onerror st)) = S (S (Hook.terminated st))
  /\ Hook.workerRef (Hook.onerror st) = fresh_worker
  /\ Hook.settings (Hook.onerror st) = Hook.settings st.
Proof.
  assert (Hrest : Hook.terminated (Hook.onerror st) = S (Hook.terminated st)
                  /\ Hook.terminated (Hook.onerror (Hook.onerror st))
                     = S (S (Hook.terminated st))
                  /\ Hook.workerRef (Hook.onerror st) = fresh_worker
                  /\ Hook.settings (Hook.onerror st) = Hook.settings st)
    by (repeat split).
  revert Hrest.
  cbn [Hook.onerror Hook.files]. unfold Hook.crash_files.
  assert (Hnone : forall f,
            f ∈ (fun f => if decide (Hook.status f = Hook.compressing)
                          then Hook.with_status f Hook.error (Some Hook.engine_crashed)
                          else f) <$> Hook.files st
            -> Hook.status f <> Hook.compressing).
  { intros f Hf. apply list_elem_of_fmap in Hf as (g & -> & _).
    case_decide; [discriminate|assumption]. }
  intros Hrest.
  split; [exact Hnone|]. split; [|split; [|split; [|exact Hrest]]].
  - rewrite <- list_fmap_compose. apply list_fmap_ext. intros i g _.
    cbn. case_decide; reflexivity.
  - unfold Queue.isCompressing.
    destruct (existsb _ _) eqn:E; [|reflexivity]. exfalso.
    apply existsb_exists in E as (f & Hin & Hs).
    apply bool_decide_eq_true in Hs. apply list_elem_of_In in Hin.
    exact (Hnone f Hin Hs).
  - rewrite <- list_fmap_compose. apply list_fmap_ext. intros i g _.
    cbn. destruct (decide (Hook.status g = Hook.compressing)) as [Hg|Hg].
    + rewrite decide_False by discriminate. reflexivity.
    + rewrite decide_False by exact Hg. reflexivity.
Qed.

Lemma onerror_leaves_none_compressing_witness :
  Queue.isCompressing (Hook.files Sample.state) = true
  /\ Queue.isCompressing (Hook.files (Hook.onerror Sample.state)) = false
  /\ Hook.terminated (Hook.onerror (Hook.onerror Sample.state)) = 2%nat.
Proof.
  split; [reflexivity|].
  destruct (onerror_leaves_none_compressing Sample.state) as (_ & _ & H & _ & _ & H' & _).
  split; [exact H|exact H'].
Defined.

(** X14. A response is matched to its file by id alone: a response whose
    id is not the awaited one changes nothing, and a response that is
    handled leaves the length of the list, the ids, and every file with
    another id as they were. *)
Theorem response_correlation url current ident r prev :
  (Message.id r <> ident -> Hook.handle_files url current ident r prev = prev)
  /\ length (Hook.handle_files url current ident r prev) = length prev
  /\ Hook.id <$> Hook.handle_files url current ident r prev = Hook.id <$> prev
  /\ (forall i f, prev !! i = Some f -> Hook.id f <> ident ->
        Hook.handle_files url current ident r prev !! i = Some f).
Proof.
  unfold Hook.handle_files. split; [|split; [|split]].
  - intros H. rewrite bool_decide_eq_false_2 by exact H. reflexivity.
  - destruct (negb _); [reflexivity|]. apply length_fmap.
  - destruct (negb _); [reflexivity|].
    rewrite <- list_fmap_compose. apply list_fmap_ext. intros i g _. cbn.
    case_decide; [|reflexivity].
    destruct (Message.success r); [destruct (Message.blob r)|]; reflexivity.
  - intros i f Hi Hne. destruct (negb _); [exact Hi|].
    rewrite list_lookup_fmap, Hi. cbn. rewrite decide_False by exact Hne. reflexivity.
Qed.

Lemma response_correlation_witness :
  Hook.handle_files (Queue.url_of_blob Fixture.page) Buttons.resetSettings "b"
    {| Message.id := "zz"; Message.success := false; Message.blob := None;
       Message.time := None; Message.error := Some "late" |}
    (Hook.files Sample.state)
  = Hook.files Sample.state.
Proof.
  apply (response_correlation (Queue.url_of_blob Fixture.page) Buttons.resetSettings "b").
  discriminate.
Defined.

(* ===================================================================== *)
(** ** Beyond the claims: from the request to the list, and back *)
(* ===================================================================== *)

Section Files.

Import Hook.

(** The one response of a handler run, spelled out. *)
Lemma onmessage_response C e w :
  posted (WorkerScript.onmessage C e w).1 =
    (posted w ++
     [match Compressor.compressFile C (WorkerScript.req_file e)
              (WorkerScript.req_quality e) (WorkerScript.req_format e) (now C w).1 with
      | (w1, inr b) =>
          {| Message.id := WorkerScript.req_id e; Message.success := true;
             Message.blob := Some b;
             Message.time :=
               Some (JS.sub (performance_now C (clock w1)) (performance_now C (clock w)));
             Message.error := None |}
      | (_, inl err) =>
          {| Message.id := WorkerScript.req_id e; Message.success := false;
             Message.blob := None; Message.time := None;
             Message.error := Some (WorkerScript.translate err) |}
      end])%list.
Proof.
  unfold WorkerScript.onmessage. run.
  pose proof (posted_compressFile C (WorkerScript.req_file e) (WorkerScript.req_quality e)
                (WorkerScript.req_format e) (now C w).1) as Hp.
  unfold now in *. cbn [fst] in *.
  destruct (Compressor.compressFile _ _ _ _ _) as [w1 [err|b]]; run; cbn [fst snd] in *;
    rewrite Hp; reflexivity.
Qed.

(** X15. Every request ends with its file done or in error: when the
    response the worker posted for a request is handled, each file with
    the id of the request is done, with the blob, its size in bytes and
    the ratio of the two sizes, when the compression returned; and in
    error, with the worker's message and its earlier blob untouched,
    when it threw. *)
Theorem request_ends_done_or_error C e w url current prev r i f :
  last (posted (WorkerScript.onmessage C e w).1) = Some r ->
  prev !! i = Some f ->
  id f = WorkerScript.req_id e ->
  exists f',
    handle_files url current (WorkerScript.req_id e) r prev !! i = Some f'
    /\ id f' = id f
    /\ match (Compressor.compressFile C (WorkerScript.req_file e)
                (WorkerScript.req_quality e) (WorkerScript.req_format e) (now C w).1).2 with
       | inr b =>
           status f' = done
           /\ compressedBlob f' = Some b
           /\ compressedUrl f' = Some (url b)
           /\ compressedSize f' = Some (Z.of_nat (length (blob_bytes b)))
           /\ ratio f' = Some (FileIO.compressionRatio (JS.of_Z (originalSize f))
                                 (JS.of_Z (Z.of_nat (length (blob_bytes b)))))
       | inl err =>
           status f' = error
           /\ error_message f' = Some (WorkerScript.translate err)
           /\ compressedBlob f' = compressedBlob f
       end.
Proof.
  rewrite onmessage_response, last_snoc. intros [= <-] Hi Hid.
  unfold handle_files.
  destruct (Compressor.compressFile _ _ _ _ _) as [w1 [err|b]]; cbn [snd Message.id];
    rewrite bool_decide_eq_true_2 by reflexivity; cbn [negb];
    rewrite list_lookup_fmap, Hi; cbn; rewrite decide_True by exact Hid;
    eexists; (split; [reflexivity|]); cbn; auto 10.
Qed.

Lemma request_ends_done_or_error_witness :
  exists f',
    handle_files (Queue.url_of_blob Fixture.page) Buttons.resetSettings "b"
      {| Message.id := "b"; Message.success := true;
         Message.blob := Some {| blob_bytes := Sample.encoded; blob_type := "image/png" |};
         Message.time := Some (JS.of_Z 1); Message.error := None |}
      (files Sample.state) !! 1%nat = Some f'
    /\ status f' = done.
Proof.
  destruct (request_ends_done_or_error Sample.codecs Fixture.request fresh_worker
              (Queue.url_of_blob Fixture.page) Buttons.resetSettings (files Sample.state)
              {| Message.id := "b"; Message.success := true;
                 Message.blob := Some {| blob_bytes := Sample.encoded;
                                         blob_type := "image/png" |};
                 Message.time := Some (JS.of_Z 1); Message.error := None |}
              1%nat (Sample.entry "b" compressing))
    as (f' & H1 & _ & H2).
  - vm_compute. reflexivity.
  - reflexivity.
  - reflexivity.
  - exists f'. split; [exact H1|]. exact (proj1 H2).
Defined.

(** The ids [genId] makes: the stamp and the counter can be read back. *)
Lemma uint_no_dash d : no_dash (NilEmpty.string_of_uint d) = true.
Proof.
  induction d as [|d IH|d IH|d IH|d IH|d IH|d IH|d IH|d IH|d IH|d IH];
    cbn [NilEmpty.string_of_uint no_dash]; rewrite ?IH; reflexivity.
Qed.

Lemma of_int_no_dash z : 0 <= z -> no_dash (Text.of_int z) = true.
Proof.
  intros H. unfold Text.of_int. destruct z as [|p|p]; [reflexivity| |lia].
  cbn [Z.to_int NilZero.string_of_int]. unfold NilZero.string_of_uint.
  destruct (Pos.to_uint p); try reflexivity; apply (uint_no_dash (_ _)).
Qed.

Lemma of_int_inj z z' : Text.of_int z = Text.of_int z' -> z = z'.
Proof.
  unfold Text.of_int. intros H. apply DecimalZ.to_int_inj.
  assert (Hn : forall n, Z.to_int n <> Decimal.Pos Decimal.Nil /\ Z.to_int n <> Decimal.Neg Decimal.Nil).
  { intros [|p|p]; cbn; split; try discriminate; intros [= E];
      exact (DecimalPos.Unsigned.to_uint_nonnil p E). }
  pose proof (NilZero.isi (Z.to_int z) (proj1 (Hn z)) (proj2 (Hn z))) as H1.
  pose proof (NilZero.isi (Z.to_int z') (proj1 (Hn z')) (proj2 (Hn z'))) as H2.
  rewrite H in H1. congruence.
Qed.

Lemma split_at_dash a : forall a' b b',
  no_dash a = true -> no_dash a' = true ->
  a +:+ "-" +:+ b = a' +:+ "-" +:+ b' -> a = a' /\ b = b'.
Proof.
  induction a as [|c a IH]; intros [|c' a'] b b' Ha Ha' E.
  - injection E as E. split; [reflexivity | exact E].
  - injection E as E _. subst c'. discriminate Ha'.
  - injection E as E _. subst c. discriminate Ha.
  - injection E as Ec E. subst c'.
    apply andb_prop in Ha as [_ Ha]. apply andb_prop in Ha' as [_ Ha'].
    destruct (IH _ _ _ Ha Ha' E) as [Ea Eb]. split; [f_equal; exact Ea | exact Eb].
Qed.

Lemma genId_inj stamp counter stamp' counter' :
  0 <= stamp -> 0 <= stamp' ->
  Queue.genId stamp counter = Queue.genId stamp' counter' ->
  stamp = stamp' /\ counter = counter'.
Proof.
  intros Hs Hs' E. unfold Queue.genId in E.
  change ("file-" +:+ ?x) with (String "f" (String "i" (String "l" (String "e" (String "-" x))))) in E.
  injection E as E.
  apply split_at_dash in E as [E1 E2]; try (apply of_int_no_dash; assumption).
  split; apply of_int_inj; assumption.
Qed.

Lemma make_entries_spec P current l : forall c,
  file <$> (Queue.make_entries P current c l).1 = l
  /\ id <$> (Queue.make_entries P current c l).1
     = (fun k => Queue.genId (Queue.date_now P k) k) <$> seqZ c (Z.of_nat (length l))
  /\ (Queue.make_entries P current c l).2 = c + Z.of_nat (length l)
  /\ Forall (fun e => status e = pending /\ appliedSettings e = Some current
                      /\ compressedBlob e = None)
       (Queue.make_entries P current c l).1.
Proof.
  induction l as [|f l IH]; intros c; cbn [Queue.make_entries].
  - cbn. repeat split; [lia | constructor].
  - specialize (IH (c + 1)). destruct (Queue.make_entries P current (c + 1) l) as [es c'].
    cbn [fst snd] in *. destruct IH as (IH1 & IH2 & IH3 & IH4).
    rewrite !fmap_cons, IH1, IH2. cbn [length].
    rewrite (seqZ_cons c) by lia.
    replace (Z.succ c) with (c + 1) by lia.
    replace (Z.pred (Z.of_nat (S (length l)))) with (Z.of_nat (length l)) by lia.
    repeat split; [lia|]. constructor; [cbn; auto | exact IH4].
Qed.

(** X16. The ids made for the files of one [addFiles] call are pairwise
    distinct, and distinct from every id made once the counter has
    moved past them, at whatever times the calls happen (the clock is
    only assumed not to be negative). *)
Theorem fresh_ids_distinct P current c l :
  (forall k, 0 <= Queue.date_now P k) ->
  NoDup (id <$> (Queue.make_entries P current c l).1)
  /\ forall c' l' ident,
       c + Z.of_nat (length l) <= c' ->
       ident ∈ id <$> (Queue.make_entries P current c l).1 ->
       ident ∉ id <$> (Queue.make_entries P current c' l').1.
Proof.
  intros Hnow.
  assert (Hinj : Inj (=) (=) (fun k => Queue.genId (Queue.date_now P k) k)).
  { intros k k' E. apply genId_inj in E as [_ E]; auto. }
  split.
  - destruct (make_entries_spec P current l c) as (_ & -> & _).
    apply NoDup_fmap_2; [exact Hinj | apply NoDup_seqZ].
  - intros c' l' ident Hc.
    destruct (make_entries_spec P current l c) as (_ & -> & _).
    destruct (make_entries_spec P current l' c') as (_ & -> & _).
    intros H H'.
    apply list_elem_of_fmap in H as (k & -> & Hk).
    apply list_elem_of_fmap in H' as (k' & E & Hk').
    apply Hinj in E. subst k'.
    apply elem_of_seqZ in Hk. apply elem_of_seqZ in Hk'. lia.
Qed.

Lemma fresh_ids_distinct_witness :
  NoDup (id <$> (Queue.make_entries Fixture.page Buttons.resetSettings 4
                   [Fixture.photo "a.png" "image/png";
                    Fixture.photo "a.png" "image/png"]).1).
Proof.
  apply (fresh_ids_distinct Fixture.page Buttons.resetSettings 4).
  intros k. discriminate.
Defined.

(** The effect of [processFile] on each of a list of entries, in order. *)
Lemma process_all entries : forall s,
  let s' := fold_left (fun acc e => Queue.processFile (id e) (file e) acc) entries s in
  Queue.sent s' =
    (Queue.sent s ++
     ((fun e => {| WorkerScript.req_id := id e; WorkerScript.req_file := file e;
                   WorkerScript.req_quality :=
                     Some (settings_quality (settings (Queue.hook s)));
                   WorkerScript.req_format := settings_format (settings (Queue.hook s)) |})
      <$> entries))%list
  /\ Queue.idCounter s' = Queue.idCounter s
  /\ settings (Queue.hook s') = settings (Queue.hook s)
  /\ files (Queue.hook s') =
       (fun f => if decide (id f ∈ id <$> entries)
                 then with_status f compressing (error_message f) else f)
       <$> files (Queue.hook s).
Proof.
  induction entries as [|e entries IH]; intros s; cbn [fold_left].
  - cbn. rewrite app_nil_r. repeat split.
    symmetry. etrans; [|apply list_fmap_id]. apply list_fmap_ext. intros i f _.
    rewrite decide_False; [reflexivity|]. apply not_elem_of_nil.
  - destruct (IH (Queue.processFile (id e) (file e) s)) as (H1 & H2 & H3 & H4).
    cbn zeta in *. rewrite H1, H2, H3, H4.
    cbn [Queue.processFile Queue.sent Queue.idCounter Queue.hook Queue.with_files
         settings files].
    rewrite fmap_cons, <- app_assoc. repeat split.
    unfold start_files. rewrite <- list_fmap_compose.
    apply list_fmap_ext. intros i f _. cbn.
    destruct (decide (id f = id e)) as [E|E].
    + cbn [id with_status]. rewrite (decide_True (P := id f ∈ id e :: _)) by (rewrite E; left).
      destruct (decide (id f ∈ id <$> entries)); reflexivity.
    + destruct (decide (id f ∈ id <$> entries)) as [Hin|Hin].
      * rewrite decide_True by (right; exact Hin). reflexivity.
      * rewrite decide_False; [reflexivity|].
        intros Hc. apply elem_of_cons in Hc as [Hc|Hc]; contradiction.
Qed.

(** X17. [addFiles] drops the files [isSupportedFile] rejects and does
    nothing when none is left.  Otherwise it appends one entry per
    accepted file, in order, after the entries there were, which keep
    their place and id (and are unchanged when no new id equals theirs);
    every new entry is compressing; one request per accepted file is
    posted, in order, with the entry's id, the file, and the quality and
    format of the settings of the moment; and the id counter advances
    by the number of accepted files. *)
Theorem addFiles_effect P newFiles s :
  let supported := List.filter Compressor.isSupportedFile newFiles in
  let s' := Queue.addFiles P newFiles s in
  (supported = [] -> s' = s)
  /\ exists kept added requests,
       files (Queue.hook s') = (kept ++ added)%list
       /\ length kept = length (files (Queue.hook s))
       /\ id <$> kept = id <$> files (Queue.hook s)
       /\ (Forall (fun f => id f ∉ id <$> added) (files (Queue.hook s)) ->
           kept = files (Queue.hook s))
       /\ file <$> added = supported
       /\ Forall (fun e => status e = compressing) added
       /\ Queue.sent s' = (Queue.sent s ++ requests)%list
       /\ WorkerScript.req_file <$> requests = supported
       /\ WorkerScript.req_id <$> requests = id <$> added
       /\ Forall (fun r =>
            WorkerScript.req_quality r = Some (settings_quality (settings (Queue.hook s)))
            /\ WorkerScript.req_format r = settings_format (settings (Queue.hook s)))
            requests
       /\ Queue.idCounter s' = Queue.idCounter s + Z.of_nat (length supported).
Proof.
  intros supported s'. subst s'. unfold Queue.addFiles. fold supported.
  split.
  { intros ->. reflexivity. }
  destruct (make_entries_spec P (settings (Queue.hook s)) supported (Queue.idCounter s))
    as (Hfile & _ & Hcount & _).
  set (mark := fun (entries : list CompressedFile) (f : CompressedFile) =>
         if decide (id f ∈ id <$> entries)
         then with_status f compressing (error_message f) else f).
  assert (Hgen : forall entries c,
    Queue.make_entries P (settings (Queue.hook s)) (Queue.idCounter s) supported = (entries, c) ->
    let s' := fold_left (fun acc e => Queue.processFile (id e) (file e) acc) entries
                {| Queue.hook := Queue.with_files (Queue.hook s)
                                   (files (Queue.hook s) ++ entries);
                   Queue.idCounter := c; Queue.sent := Queue.sent s |} in
    exists kept added requests,
       files (Queue.hook s') = (kept ++ added)%list
       /\ length kept = length (files (Queue.hook s))
       /\ id <$> kept = id <$> files (Queue.hook s)
       /\ (Forall (fun f => id f ∉ id <$> added) (files (Queue.hook s)) ->
           kept = files (Queue.hook s))
       /\ file <$> added = supported
       /\ Forall (fun e => status e = compressing) added
       /\ Queue.sent s' = (Queue.sent s ++ requests)%list
       /\ WorkerScript.req_file <$> requests = supported
       /\ WorkerScript.req_id <$> requests = id <$> added
       /\ Forall (fun r =>
            WorkerScript.req_quality r = Some (settings_quality (settings (Queue.hook s)))
            /\ WorkerScript.req_format r = settings_format (settings (Queue.hook s)))
            requests
       /\ Queue.idCounter s' = Queue.idCounter s + Z.of_nat (length supported)).
  { intros entries c E. rewrite E in Hfile, Hcount. cbn [fst snd] in Hfile, Hcount.
    intros s'. subst s'.
    destruct (process_all entries
                {| Queue.hook := Queue.with_files (Queue.hook s)
                                   (files (Queue.hook s) ++ entries);
                   Queue.idCounter := c; Queue.sent := Queue.sent s |})
      as (H1 & H2 & H3 & H4).
    cbn zeta in *.
    cbn [Queue.sent Queue.idCounter Queue.hook Queue.with_files settings files] in *.
    exists (mark entries <$> files (Queue.hook s)), (mark entries <$> entries).
    eexists. rewrite H4, fmap_app.
    split; [reflexivity|]. split; [apply length_fmap|].
    assert (Hid : forall l : list CompressedFile,
              id <$> (mark entries <$> l) = id <$> l).
    { intros l. rewrite <- list_fmap_compose. apply list_fmap_ext. intros i f _.
      unfold mark. cbn. destruct (decide _); reflexivity. }
    split; [apply Hid|]. split.
    { rewrite Hid. intros HF. apply list_eq. intros i.
      rewrite list_lookup_fmap. destruct (files (Queue.hook s) !! i) as [f|] eqn:Ei;
        [|reflexivity].
      cbn. f_equal. unfold mark. rewrite decide_False; [reflexivity|].
      exact (Forall_lookup_1 _ _ _ _ HF Ei). }
    split.
    { rewrite <- Hfile, <- list_fmap_compose. apply list_fmap_ext. intros i f _.
      unfold mark. cbn. destruct (decide _); reflexivity. }
    split.
    { apply Forall_fmap, Forall_forall. intros e He. unfold mark. cbn.
      rewrite decide_True; [reflexivity|]. apply list_elem_of_fmap_2. exact He. }
    split; [exact H1|].
    split; [rewrite <- list_fmap_compose; exact Hfile|].
    split; [rewrite <- list_fmap_compose, Hid; reflexivity|].
    split; [apply Forall_fmap, Forall_forall; intros e _; cbn; auto|].
    rewrite H2. exact Hcount. }
  destruct supported as [|f0 rest] eqn:Es.
  - exists (files (Queue.hook s)), [], []. rewrite !app_nil_r. cbn.
    repeat split; try constructor; try reflexivity. lia.
  - destruct (Queue.make_entries P _ _ (f0 :: rest)) as [entries c] eqn:E.
    exact (Hgen entries c eq_refl).
Qed.

Lemma addFiles_effect_witness :
  WorkerScript.req_file <$>
    Queue.sent (Queue.addFiles Fixture.page
                  [Fixture.photo "a.gif" "image/gif"; Fixture.photo "b.png" "image/png"]
                  Fixture.session)
  = [Fixture.photo "b.png" "image/png"]
  /\ Queue.addFiles Fixture.page [Fixture.photo "a.gif" "image/gif"] Fixture.session
     = Fixture.session.
Proof.
  split; [vm_compute; reflexivity|].
  apply (addFiles_effect Fixture.page [Fixture.photo "a.gif" "image/gif"] Fixture.session).
  vm_compute. reflexivity.
Defined.

Lemma no_dot_app a b : Queue.no_dot (a +:+ b) = Queue.no_dot a && Queue.no_dot b.
Proof.
  induction a as [|c a IH]; [reflexivity|].
  change (String c a +:+ b) with (String c (a +:+ b)). cbn [Queue.no_dot].
  rewrite IH. apply andb_assoc.
Qed.

Lemma baseName_no_dot s : Queue.no_dot s = true -> Queue.baseName s = s.
Proof.
  induction s as [|c s IH]; [reflexivity|]. cbn [Queue.no_dot]. intros H.
  apply andb_prop in H as [Hc Hs].
  cbn [Queue.baseName Queue.extension_here].
  replace (Queue.is_dot c) with false by (symmetry; apply negb_true_iff, Hc).
  destruct s; cbn [andb]; rewrite ?IH by exact Hs; reflexivity.
Qed.

Lemma extension_here_dotted c a b :
  Queue.extension_here (String c (a +:+ "." +:+ b)) = false.
Proof.
  cbn [Queue.extension_here].
  destruct (a +:+ "." +:+ b) as [|d r] eqn:E; [reflexivity|].
  rewrite <- E, no_dot_app. cbn. rewrite andb_false_r. apply andb_false_r.
Qed.

Lemma baseName_strips_last_extension base ext :
  ext <> "" -> Queue.no_dot ext = true ->
  Queue.baseName (base +:+ "." +:+ ext) = base.
Proof.
  intros Hne Hext. induction base as [|c base IH].
  - change ("" +:+ "." +:+ ext) with (String "." ext).
    cbn [Queue.baseName Queue.extension_here].
    destruct ext as [|d ext]; [contradiction|]. rewrite Hext. reflexivity.
  - change (String c base +:+ "." +:+ ext) with (String c (base +:+ "." +:+ ext)).
    cbn [Queue.baseName]. rewrite extension_here_dotted, IH. reflexivity.
Qed.

Lemma baseName_trailing_dot base : Queue.baseName (base +:+ ".") = base +:+ ".".
Proof.
  induction base as [|c base IH]; [reflexivity|].
  change (String c base +:+ ".") with (String c (base +:+ ".")).
  cbn [Queue.baseName]. rewrite IH.
  replace (Queue.extension_here (String c (base +:+ "."))) with false; [reflexivity|].
  symmetry. cbn [Queue.extension_here].
  destruct (base +:+ ".") as [|d r] eqn:E; [reflexivity|].
  rewrite <- E, no_dot_app. cbn. rewrite andb_false_r. apply andb_false_r.
Qed.

Lemma mimeToExtension_output fmt :
  FileIO.mimeToExtension (Engine.formatToMime fmt)
  = FileIO.Ext (if decide (fmt = jpeg) then "jpg" else format_name fmt).
Proof. destruct fmt; vm_compute; reflexivity. Qed.

Lemma mimeToExtension_text mime :
  Spec.spelled "constructor" mime = false ->
  Spec.spelled "__proto__" mime = false ->
  exists s, FileIO.mimeToExtension mime = FileIO.Ext s
            /\ s ∈ ["jpg"; "png"; "webp"; "avif"; "jxl"; "heic"].
Proof.
  intros H1 H2. unfold FileIO.mimeToExtension. rewrite mimeToFormat_spelled, H1, H2.
  repeat match goal with
         | |- context [if Spec.spelled ?k ?m then _ else _] =>
             destruct (Spec.spelled k m);
             [eexists; split; [reflexivity|apply list_elem_of_In; cbn; auto 10]|]
         end.
  eexists; split; [reflexivity|apply list_elem_of_In; cbn; auto 10].
Qed.

(** The mime type of a blob [compressFile] returns is the output type
    of a format. *)
Lemma compressFile_blob_type C file q format w w' b :
  Compressor.compressFile C file q format w = (w', inr b) ->
  exists fmt, blob_type b = Engine.formatToMime fmt.
Proof.
  intros Hrun.
  destruct (Engine.mimeToFormat (file_type file)) as [[f|v]|] eqn:Hf.
  - rewrite (compressFile_known _ _ _ _ _ Hf) in Hrun.
    unfold mbind, M_bind, mret, M_ret in Hrun.
    destruct (Codec.decodeImage C file w) as [w1 [e|img]]; [discriminate|].
    destruct (Codec.encodeImage C img _ _ w1) as [w2 [e|buffer]]; [discriminate|].
    injection Hrun as _ <-. eexists. reflexivity.
  - rewrite (compressFile_inherited _ _ _ _ _ Hf) in Hrun.
    unfold mbind at 1, M_bind in Hrun.
    destruct (Codec.decodeImage C file w) as [w1 [e|img]]; [discriminate|].
    destruct format as [f|]; [|discriminate].
    unfold mbind, M_bind, mret, M_ret in Hrun.
    destruct (Codec.encodeImage C img _ _ w1) as [w2 [e|buffer]]; [discriminate|].
    injection Hrun as _ <-. eexists. reflexivity.
  - unfold Compressor.compressFile in Hrun. rewrite Hf in Hrun. discriminate.
Qed.

(** X18. The name a compressed file is saved under, when its blob is
    one [compressFile] returned: the mime type of the blob is the
    output type of a format, and the name is the original name without
    its last extension (a final dot followed by at least one character
    and no further dot), then "_compressed." and the name of that
    format, with jpg for jpeg.  A name without a dot, or ending in a
    dot, is kept whole.  For an arbitrary mime type [mimeToExtension]
    returns one of the strings jpg, png, webp, avif, jxl and heic
    unless the type is a spelling of "constructor" or "__proto__"; for
    those it returns no string but the inherited member. *)
Theorem download_name_spec P C file q format w w' f b :
  Compressor.compressFile C file q format w = (w', inr b) ->
  compressedBlob f = Some b ->
  (exists fmt,
     blob_type b = Engine.formatToMime fmt
     /\ let ext := if decide (fmt = jpeg) then "jpg" else format_name fmt in
        (forall base old, old <> "" -> Queue.no_dot old = true ->
           name f = base +:+ "." +:+ old ->
           Queue.download_name P f = Some (base +:+ "_compressed." +:+ ext))
        /\ (Queue.no_dot (name f) = true ->
            Queue.download_name P f = Some (name f +:+ "_compressed." +:+ ext))
        /\ (forall base, name f = base +:+ "." ->
            Queue.download_name P f = Some (name f +:+ "_compressed." +:+ ext)))
  /\ (forall mime,
      (Spec.spelled "constructor" mime = false ->
       Spec.spelled "__proto__" mime = false ->
       exists s, FileIO.mimeToExtension mime = FileIO.Ext s
                 /\ s ∈ ["jpg"; "png"; "webp"; "avif"; "jxl"; "heic"])
      /\ (Spec.spelled "constructor" mime = true ->
          FileIO.mimeToExtension mime = FileIO.Obj JS.Object_constructor)
      /\ (Spec.spelled "__proto__" mime = true ->
          FileIO.mimeToExtension mime = FileIO.Obj JS.Object_prototype)).
Proof.
  intros Hrun Hb. split.
  - destruct (compressFile_blob_type _ _ _ _ _ _ _ Hrun) as [fmt Ht].
    exists fmt. split; [exact Ht|]. cbn zeta. unfold Queue.download_name.
    rewrite Hb, Ht, mimeToExtension_output. cbn [FileIO.template].
    split; [|split].
    + intros base old Hne Hold ->. rewrite baseName_strips_last_extension by assumption.
      reflexivity.
    + intros H. rewrite baseName_no_dot by exact H. reflexivity.
    + intros base E. rewrite E, baseName_trailing_dot. reflexivity.
  - intros mime. split; [apply mimeToExtension_text|].
    unfold FileIO.mimeToExtension.
    split; intros H; erewrite (proj2 (mimeToFormat_keys_inherited mime _));
      try reflexivity; [left|right]; (split; [reflexivity|exact H]).
Qed.

Lemma download_name_spec_witness :
  let job :=
    Compressor.compressFile Sample.codecs (Fixture.photo "holiday.2024.JPG" "image/jpeg")
      None None fresh_worker in
  exists b,
    job.2 = inr b
    /\ Queue.download_name Fixture.page
         {| id := "a"; file := Fixture.photo "holiday.2024.JPG" "image/jpeg";
            name := "holiday.2024.JPG"; originalSize := 3; compressedSize := Some 3;
            ratio := None; time := None; status := done; error_message := None;
            originalUrl := "blob:0"; compressedUrl := None;
            compressedBlob := Some b;
            outputFormat := jpeg; appliedSettings := None |}
       = Some "holiday.2024_compressed.jpg".
Proof.
  intros job. eexists. split; [vm_compute; reflexivity|].
  match goal with
  | |- Queue.download_name _ ?f = _ =>
      destruct (download_name_spec Fixture.page Sample.codecs
                  (Fixture.photo "holiday.2024.JPG" "image/jpeg") None None
                  fresh_worker job.1 f _ eq_refl eq_refl)
        as [(fmt & Ht & H & _) _]
  end.
  rewrite (H "holiday.2024" "JPG"); [|discriminate|reflexivity|reflexivity].
  destruct fmt; try discriminate Ht. reflexivity.
Defined.

(** X19. A retry sends the file of the first entry with the id again,
    under the settings of the moment, not those recorded in the entry,
    and from whatever status the entry has; the entry becomes
    compressing, every entry keeps its recorded settings and its id,
    and entries with another id are unchanged. *)
Theorem retry_uses_current_settings ident s target :
  List.find (fun f => bool_decide (id f = ident)) (files (Queue.hook s)) = Some target ->
  let s' := Queue.retryFile ident s in
  Queue.sent s' =
    (Queue.sent s ++
     [ {| WorkerScript.req_id := ident; WorkerScript.req_file := file target;
          WorkerScript.req_quality := Some (settings_quality (settings (Queue.hook s)));
          WorkerScript.req_format := settings_format (settings (Queue.hook s)) |} ])%list
  /\ appliedSettings <$> files (Queue.hook s') = appliedSettings <$> files (Queue.hook s)
  /\ id <$> files (Queue.hook s') = id <$> files (Queue.hook s)
  /\ (forall i f, files (Queue.hook s) !! i = Some f ->
        exists f', files (Queue.hook s') !! i = Some f'
                   /\ (id f = ident -> status f' = compressing)
                   /\ (id f <> ident -> f' = f)).
Proof.
  intros Hfind s'. subst s'. unfold Queue.retryFile. rewrite Hfind.
  cbn [Queue.processFile Queue.sent Queue.hook Queue.with_files files].
  split; [reflexivity|]. unfold start_files.
  split; [|split].
  - rewrite <- list_fmap_compose. apply list_fmap_ext. intros i f _. cbn.
    destruct (decide _); reflexivity.
  - rewrite <- list_fmap_compose. apply list_fmap_ext. intros i f _. cbn.
    destruct (decide _); reflexivity.
  - intros i f Hi. rewrite list_lookup_fmap, Hi. cbn. eexists. split; [reflexivity|].
    destruct (decide (id f = ident)); split; intros; try contradiction; reflexivity.
Qed.

Lemma retry_uses_current_settings_witness :
  WorkerScript.req_quality <$> Queue.sent (Queue.retryFile "c" Fixture.session)
  = [Some balanced]
  /\ status <$> files (Queue.hook (Queue.retryFile "c" Fixture.session))
     = [pending; compressing; compressing; compressing].
Proof.
  destruct (retry_uses_current_settings "c" Fixture.session (Sample.entry "c" done))
    as (H1 & _).
  - vm_compute. reflexivity.
  - split; [rewrite H1|]; vm_compute; reflexivity.
Defined.

End Files.

(* ===================================================================== *)
(** ** Beyond the claims: what the settings bar can ask for *)
(* ===================================================================== *)

Lemma click_well_chosen s c :
  Buttons.well_chosen s -> Buttons.drawn s c -> Buttons.well_chosen (Buttons.after s c).
Proof.
  intros Hs Hd. destruct c as [opt| |level|]; unfold Buttons.drawn, Buttons.after in *.
  - unfold Buttons.well_chosen, SettingsBar.select_format. cbn.
    unfold SettingsBar.TARGET_FORMATS in Hd.
    repeat (apply elem_of_cons in Hd as [->|Hd]); [..|inversion Hd];
      (split; [discriminate|]); destruct (Hook.settings_quality s); reflexivity.
  - exact I.
  - unfold Buttons.well_chosen, SettingsBar.select_quality in *. cbn.
    destruct (Hook.settings_format s) as [f|] eqn:Ef; [|exact I].
    destruct Hs as [Hh _]. split; [exact Hh|].
    unfold SettingsBar.quality_buttons, SettingsBar.actualConfigKey in Hd. rewrite Ef in Hd.
    apply list_elem_of_In, filter_In in Hd as [_ Hd].
    destruct f; try exact Hd. contradiction.
  - exact I.
Qed.

(** X20. Through the buttons of the settings bar a target format is only
    ever combined with a quality level it supports: starting from
    settings that are well chosen (no target format, or one other than
    HEIC with a supported level), every sequence of clicks on drawn
    buttons leads to well-chosen settings.  In particular switching to
    JPEG while lossless is selected moves the level to high. *)
Theorem buttons_keep_supported s l s' :
  Buttons.well_chosen s -> Buttons.clicks s l s' -> Buttons.well_chosen s'.
Proof.
  intros Hs Hc. induction Hc as [s|s c l s' Hd _ IH]; [exact Hs|].
  apply IH, click_well_chosen; assumption.
Qed.

Lemma buttons_keep_supported_witness :
  Buttons.clicks Buttons.resetSettings
    [Buttons.ClickFormat webp; Buttons.ClickQuality lossless; Buttons.ClickFormat jpeg]
    {| Hook.settings_quality := high; Hook.settings_format := Some jpeg |}
  /\ Buttons.well_chosen
       {| Hook.settings_quality := high; Hook.settings_format := Some jpeg |}.
Proof.
  assert (Hc : Buttons.clicks Buttons.resetSettings
            [Buttons.ClickFormat webp; Buttons.ClickQuality lossless;
             Buttons.ClickFormat jpeg]
            {| Hook.settings_quality := high; Hook.settings_format := Some jpeg |}).
  { repeat (econstructor; [cbn; apply list_elem_of_In; cbn; auto 10|]).
    cbn. constructor. }
  split; [exact Hc|].
  refine (buttons_keep_supported _ _ _ _ Hc). vm_compute. exact I.
Defined.

(** X21. The guarantee of the buttons stops at "keep the original
    format", which keeps the level: lossless with no target format is a
    state the buttons reach, and in it a file that ends up as JPEG is
    compressed exactly as at level high, from the table cell marked
    unsupported. *)
Theorem jpeg_lossless_runs_as_high C file format inputFormat w :
  Engine.mimeToFormat (file_type file) = Some (Engine.Format inputFormat) ->
  JS.nullish format inputFormat = jpeg ->
  Compressor.compressFile C file (Some lossless) format w
    = Compressor.compressFile C file (Some high) format w
  /\ Config.supported (Config.COMPRESSION_CONFIG jpeg lossless) = false
  /\ Buttons.clicks Buttons.resetSettings
       [Buttons.ClickFormat png; Buttons.ClickQuality lossless; Buttons.ClickKeepOriginal]
       {| Hook.settings_quality := lossless; Hook.settings_format := None |}.
Proof.
  intros Hf Hj. split; [|split; [reflexivity|]].
  - rewrite !(compressFile_known _ _ _ _ _ Hf), Hj. unfold mbind, M_bind.
    destruct (Codec.decodeImage C file w) as [w1 [e|img]]; reflexivity.
  - repeat (econstructor; [cbn; try exact I; apply list_elem_of_In; cbn; auto 10|]).
    cbn. constructor.
Qed.

Lemma jpeg_lossless_runs_as_high_witness :
  made (Compressor.compressFile Sample.codecs (Fixture.photo "a.jpg" "image/jpeg")
          (Some lossless) None) fresh_worker
  = [JpegDecode; JpegEncode {[ "quality" := 90 ]}].
Proof.
  destruct (jpeg_lossless_runs_as_high Sample.codecs (Fixture.photo "a.jpg" "image/jpeg")
              None jpeg fresh_worker) as (H & _).
  - vm_compute. reflexivity.
  - reflexivity.
  - unfold made. rewrite H. vm_compute. reflexivity.
Defined.

(** X22. For a HEIC input with no target format the page and the worker
    disagree: the entry [addFiles] makes records jpeg as the output
    format, and handling the success response keeps that, while the
    blob the worker returns has type image/heic and is saved under the
    extension heic. *)
Theorem heic_entry_mismatch P C current ident url f q w w' b :
  Hook.settings_format current = None ->
  Engine.mimeToFormat (file_type f) = Some (Engine.Format heic) ->
  Compressor.compressFile C f q None w = (w', inr b) ->
  Hook.outputFormat (Queue.new_entry current ident url f) = jpeg
  /\ (forall r, Message.id r = ident -> Message.success r = true ->
        Message.blob r = Some b ->
        exists e,
          Hook.handle_files (Queue.url_of_blob P) current ident r
            [Queue.new_entry current ident url f] = [e]
          /\ Hook.outputFormat e = jpeg
          /\ Hook.compressedBlob e = Some b
          /\ Queue.download_name P e
             = Some (Queue.baseName (file_name f) +:+ "_compressed.heic"))
  /\ blob_type b = "image/heic".
Proof.
  intros Hs Hf Hrun.
  assert (Hb : blob_type b = "image/heic").
  { rewrite (compressFile_known _ _ _ _ _ Hf) in Hrun.
    unfold mbind, M_bind, mret, M_ret in Hrun.
    destruct (Codec.decodeImage C f w) as [w1 [e|img]]; [discriminate|].
    destruct (Codec.encodeImage C img _ _ w1) as [w2 [e|buffer]]; [discriminate|].
    injection Hrun as _ <-. reflexivity. }
  assert (Ho : Hook.outputFormat (Queue.new_entry current ident url f) = jpeg).
  { unfold Queue.new_entry. cbn [Hook.outputFormat]. rewrite Hs, Hf. reflexivity. }
  split; [exact Ho|]. split; [|exact Hb].
  intros r Hid Hok Hblob. unfold Hook.handle_files.
  rewrite bool_decide_eq_true_2 by exact Hid. cbn [negb fmap list_fmap].
  cbn [Queue.new_entry Hook.id]. rewrite decide_True by reflexivity.
  rewrite Hok, Hblob. eexists. split; [reflexivity|].
  cbn [Hook.outputFormat Hook.compressedBlob]. rewrite Hs.
  split; [exact Ho|]. split; [reflexivity|].
  unfold Queue.download_name. cbn [Hook.compressedBlob Hook.name]. rewrite Hb.
  reflexivity.
Qed.

Lemma heic_entry_mismatch_witness :
  Hook.outputFormat
    (Queue.new_entry Buttons.resetSettings "file-1-0" "blob:0"
       (Fixture.photo "IMG_1.HEIC" "image/heic")) = jpeg
  /\ blob_type {| blob_bytes := Sample.encoded; blob_type := "image/heic" |} = "image/heic".
Proof.
  destruct (heic_entry_mismatch Fixture.page Sample.codecs Buttons.resetSettings
              "file-1-0" "blob:0" (Fixture.photo "IMG_1.HEIC" "image/heic")
              None fresh_worker
              (Compressor.compressFile Sample.codecs (Fixture.photo "IMG_1.HEIC" "image/heic")
                 None None fresh_worker).1
              {| blob_bytes := Sample.encoded; blob_type := "image/heic" |})
    as (H1 & _ & H2).
  - reflexivity.
  - vm_compute. reflexivity.
  - vm_compute. reflexivity.
  - split; assumption.
Defined.

(** X23. A file removed while its request is in flight does not come
    back: on the list without the entries of an id, the response for
    that id changes nothing, whatever it says; and removing the entries
    of one id commutes with handling the response for another. *)
Theorem removed_file_ignores_response createObjectURL current ident r prev :
  Hook.handle_files createObjectURL current ident r (Queue.removeFile ident prev)
    = Queue.removeFile ident prev
  /\ (forall other, other <> ident ->
        Hook.handle_files createObjectURL current ident r (Queue.removeFile other prev)
        = Queue.removeFile other
            (Hook.handle_files createObjectURL current ident r prev)).
Proof.
  unfold Hook.handle_files, Queue.removeFile.
  destruct (negb (bool_decide (Message.id r = ident))); [split; reflexivity|].
  split.
  - induction prev as [|f l IH]; [reflexivity|]. cbn [List.filter].
    destruct (bool_decide_reflect (Hook.id f = ident)) as [E|E]; cbn [negb].
    + exact IH.
    + cbn [fmap list_fmap]. rewrite decide_False by exact E. f_equal. exact IH.
  - intros other Ho. induction prev as [|f l IH]; [reflexivity|].
    cbn [List.filter fmap list_fmap].
    destruct (decide (Hook.id f = ident)) as [E|E].
    + rewrite (bool_decide_eq_false_2 (Hook.id f = other)) by congruence.
      assert (Hk : forall g, Hook.id g = Hook.id f ->
                negb (bool_decide (Hook.id g = other)) = true).
      { intros g Hg. rewrite bool_decide_eq_false_2 by congruence. reflexivity. }
      cbn [negb fmap list_fmap]. rewrite decide_True by exact E.
      destruct (Message.success r).
      * destruct (Message.blob r) as [b|].
        -- rewrite Hk by reflexivity. f_equal. exact IH.
        -- rewrite Hk by reflexivity. f_equal. exact IH.
      * rewrite Hk by reflexivity. f_equal. exact IH.
    + destruct (bool_decide (Hook.id f = other)); cbn [negb].
      * exact IH.
      * cbn [fmap list_fmap]. rewrite decide_False by exact E. f_equal. exact IH.
Qed.

Lemma removed_file_ignores_response_witness :
  "a" <> "b"
  /\ Hook.handle_files (fun _ => "blob:1") Buttons.resetSettings "b"
       {| Message.id := "b"; Message.success := false; Message.blob := None;
          Message.time := None; Message.error := Some "decode failed" |}
       (Queue.removeFile "a" (Hook.files Sample.state))
     = [Hook.with_status (Sample.entry "b" Hook.compressing) Hook.error
          (Some "decode failed");
        Sample.entry "c" Hook.done; Sample.entry "d" Hook.compressing].
Proof.
  split; [discriminate|].
  destruct (removed_file_ignores_response (fun _ => "blob:1") Buttons.resetSettings "b"
              {| Message.id := "b"; Message.success := false; Message.blob := None;
                 Message.time := None; Message.error := Some "decode failed" |}
              (Hook.files Sample.state)) as [_ H].
  rewrite (H "a") by discriminate. vm_compute. reflexivity.
Defined.
